(** * Excel pairwise comparison tool: a model of
      [compare_source_files_streamlit.py] and its properties.

    The development follows the source file top-down:
    - Python text ([str]) and the few string methods the program uses;
    - the pandas tables the program builds;
    - the retrying LLM client [get_comparison_from_kimi];
    - the Markdown table parser embedded in [perform_comparison];
    - the pair loop and the orchestrator [perform_comparison];
    - the entry point with its input validation.

    Everything the program obtains from outside (directory listing, the
    workbooks, the model's replies, the outcome of writing a file) is a
    field of an environment record, and every effect the program has on the
    outside is an event of a trace. The log lines and the Streamlit widgets
    are left out: they take no part in what is computed or written. *)

From Stdlib Require Import String Ascii.
From stdpp Require Import base decidable numbers list sorting gmap.

Local Open Scope N_scope.

(** ** Python text *)

(** A Python [str] is a sequence of Unicode code points. *)
Definition str := list N.

Module Utf8.
(** The literals of the program are written here as they are in the
    source, as UTF-8 text, and decoded into code points. *)

Definition is_cont (b : N) : bool := (128 <=? b) && (b <? 192).

Fixpoint bytes (s : string) : list N :=
  match s with
  | EmptyString => []
  | String c s' => N_of_ascii c :: bytes s'
  end.

(** [acc] is the code point being assembled, [pending] tells whether one
    is being assembled. *)
Fixpoint decode_from (acc : N) (pending : bool) (bs : list N) : str :=
  match bs with
  | [] => if pending then [acc] else []
  | b :: bs' =>
      if is_cont b then decode_from (acc * 64 + (b - 128)) true bs'
      else
        let start :=
          if b <? 128 then b
          else if b <? 224 then b - 192
          else if b <? 240 then b - 224
          else b - 240 in
        (if pending then [acc] else []) ++ decode_from start true bs'
  end.

Definition decode (s : string) : str := decode_from 0 false (bytes s).
End Utf8.

Notation "'u' s" := (Utf8.decode s) (at level 1, s at level 0, only parsing).
Global Arguments Utf8.decode : simpl never.

(** Characters on which [str.strip()] without argument acts: the code
    points for which Python's [str.isspace] holds. *)
Definition isspace (c : N) : bool :=
  ((9 <=? c) && (c <=? 13)) || ((28 <=? c) && (c <=? 32))
  || (c =? 133) || (c =? 160) || (c =? 5760)
  || ((8192 <=? c) && (c <=? 8202))
  || (c =? 8232) || (c =? 8233) || (c =? 8239) || (c =? 8287) || (c =? 12288).

Definition newline : N := 10.
Definition pipe : N := 124.
Definition slash : N := 47.

Fixpoint lstrip_by (p : N → bool) (s : str) : str :=
  match s with
  | [] => []
  | c :: s' => if p c then lstrip_by p s' else s
  end.

Definition rstrip_by (p : N → bool) (s : str) : str :=
  rev (lstrip_by p (rev s)).

(** [s.strip()] *)
Definition strip (s : str) : str := rstrip_by isspace (lstrip_by isspace s).

(** [s.strip(chars)] *)
Definition strip_chars (chars : str) (s : str) : str :=
  let p c := bool_decide (c ∈ chars) in
  rstrip_by p (lstrip_by p s).

(** [s.split(sep)] for a separator of one character: never the empty list. *)
Fixpoint split (sep : N) (s : str) : list str :=
  match s with
  | [] => [[]]
  | c :: s' =>
      if c =? sep then [] :: split sep s'
      else match split sep s' with
           | [] => [[c]]
           | w :: ws => (c :: w) :: ws
           end
  end.

(** [s.startswith(p)] *)
Fixpoint startswith (s p : str) : bool :=
  match p, s with
  | [], _ => true
  | _ :: _, [] => false
  | a :: p', b :: s' => (a =? b) && startswith s' p'
  end.

(** [s.endswith(p)] *)
Definition endswith (s p : str) : bool := startswith (rev s) (rev p).

(** [needle in hay] *)
Fixpoint contains (needle hay : str) : bool :=
  startswith hay needle
  || match hay with
     | [] => false
     | _ :: hay' => contains needle hay'
     end.

(** [sep.join(parts)] *)
Fixpoint join (sep : str) (parts : list str) : str :=
  match parts with
  | [] => []
  | [p] => p
  | p :: ps => p ++ sep ++ join sep ps
  end.

(** [s[:n]] *)
Definition prefix_slice (n : nat) (s : str) : str := take n s.

(** Order of [str] values, as [sorted] uses it: lexicographic on code
    points. *)
Fixpoint str_leb (a b : str) : bool :=
  match a, b with
  | [], _ => true
  | _ :: _, [] => false
  | x :: a', y :: b' => (x <? y) || ((x =? y) && str_leb a' b')
  end.

Definition str_le (a b : str) : Prop := str_leb a b = true.

Global Instance str_le_dec : RelDecision str_le.
Proof. intros a b. unfold str_le. apply _. Defined.

(** [sorted(list(s))] for a set of names. *)
Definition sorted_names (s : gset str) : list str :=
  merge_sort str_le (elements s).

(** [set(names)] *)
Definition set_of (names : list str) : gset str := list_to_set names.

Local Close Scope N_scope.

(** [os.path.join(a, b)] on POSIX paths. *)
Definition path_join (a b : str) : str :=
  if startswith b [slash] then b
  else match a with
       | [] => b
       | _ => if endswith a [slash] then a ++ b else a ++ [slash] ++ b
       end.

(** [os.path.basename(p)]: what follows the last slash. *)
Definition basename (p : str) : str := List.last (split slash p) [].

(** ** pandas tables *)

(** A table has column labels and rows of cells, one cell per column. The
    row index plays no role: every table is written with [index=False]. *)
Record DataFrame (C : Type) : Type :=
  { columns : list str; rows : list (list C) }.
Arguments columns {C} _.
Arguments rows {C} _.

(** Cells of the sheets read from the input workbooks: a missing value, a
    truth value, an integer or a text. Floating-point numbers and dates are
    not represented. *)
Inductive cell : Type :=
| NaN
| Flag (b : bool)
| Num (z : Z)
| Text (s : str).

Definition Sheet : Type := DataFrame cell.

(** The tables the program builds hold text only. *)
Definition Table : Type := DataFrame str.

Global Instance cell_eq_dec : EqDecision cell.
Proof. solve_decision. Defined.

Global Instance DataFrame_eq_dec `{EqDecision C} : EqDecision (DataFrame C).
Proof. solve_decision. Defined.

(** [df1.equals(df2)]: same shape, same labels, same elements, a missing
    value being equal to a missing value at the same place. *)
Definition equals (df1 df2 : Sheet) : bool := bool_decide (df1 = df2).

(** [df.empty] *)
Definition df_empty {C} (df : DataFrame C) : bool :=
  match columns df, rows df with
  | [], _ | _, [] => true
  | _, _ => false
  end.

(** [df.loc[0] = values] on a table with the default row index: the first
    row is replaced, and created when the table has no row. *)
Definition loc0_assign {C} (values : list C) (df : DataFrame C) : DataFrame C :=
  {| columns := columns df;
     rows := match rows df with
             | [] => [values]
             | _ :: rs => values :: rs
             end |}.

(** The cells of [row] under the labels equal to [label] become [v]. *)
Fixpoint overwrite {C} (label : str) (v : C) (labels : list str) (row : list C)
  : list C :=
  match labels, row with
  | l :: labels', c :: row' =>
      (if bool_decide (l = label) then v else c) :: overwrite label v labels' row'
  | _, _ => row
  end.

(** [df[label] = v] for a scalar [v]: an existing column is overwritten in
    every row, a new one is added last. *)
Definition setitem {C} (label : str) (v : C) (df : DataFrame C) : DataFrame C :=
  if bool_decide (label ∈ columns df)
  then {| columns := columns df;
          rows := overwrite label v (columns df) <$> rows df |}
  else {| columns := columns df ++ [label];
          rows := (λ r, r ++ [v]) <$> rows df |}.

(** ** The outside world *)

(** An exception is represented by its message, [str(e)]. *)
Definition exn : Type := str.

Inductive result (A : Type) : Type :=
| Ok (a : A)
| Raise (e : exn).
Arguments Ok {A} _.
Arguments Raise {A} _.

(** [pd.ExcelFile]: the sheet names, and [parse] for one sheet. *)
Record Workbook : Type :=
  { sheet_names : list str; parse : str → result Sheet }.

(** The values interpolated in the prompt of one request; the rest of the
    prompt and the model name are constant text. *)
Record Request : Type :=
  { req_content1 : str; req_content2 : str;
    req_name1 : str; req_name2 : str;
    req_sheet : str; req_api_key : str }.

(** What [dashscope.Generation.call] and the reading of the reply give:
    a status code with the content of the first choice, or an exception. *)
Inductive Reply : Type :=
| Replied (status_code : N) (content : str)
| CallRaised (e : exn).

Definition HTTPStatus_OK : N := 200.

(** The effects of the program on the outside, in the order they occur. A
    file operation is recorded when it succeeds. *)
Inductive event : Type :=
| Call (r : Request)
| Sleep (seconds : N)
| OpenWriter (file : str)
| ToExcel (file sheet : str) (df : Table)
| CloseWriter (file : str).

Definition trace : Type := list event.

(** Whatever the program asks the outside. The answers may depend on what
    has happened so far. [None] from a file operation means that it went
    through. *)
Record Env : Type :=
  { glob : str → list str;
    isdir : str → bool;
    timestamp : str;
    ExcelFile : trace → str → result Workbook;
    to_json : Sheet → str;
    Generation_call : trace → Request → Reply;
    ExcelWriter : trace → str → option exn;
    to_excel : trace → str → str → Table → option exn;
    set_column_widths : trace → str → str → Table → option exn;
    close : trace → str → option exn }.

(** ** Computations: a trace is threaded, an exception may be raised *)

Definition M (A : Type) : Type := trace → result A * trace.

Global Instance M_ret : MRet M := λ A a tr, (Ok a, tr).

Global Instance M_bind : MBind M := λ A B f m tr,
  match m tr with
  | (Ok a, tr') => f a tr'
  | (Raise e, tr') => (Raise e, tr')
  end.

(** [try: m  except Exception as e: h e] *)
Definition catch {A} (m : M A) (h : exn → M A) : M A := λ tr,
  match m tr with
  | (Ok a, tr') => (Ok a, tr')
  | (Raise e, tr') => h e tr'
  end.

(** The outcome of [m], with its exception as a value. *)
Definition attempt {A} (m : M A) : M (result A) := λ tr,
  let '(r, tr') := m tr in (Ok r, tr').

Definition emit (ev : event) : M unit := λ tr, (Ok tt, tr ++ [ev]).

Definition lift {A} (r : result A) : M A := λ tr, (r, tr).

(** An operation on a file that the outside may refuse. *)
Definition guarded (refusal : trace → option exn) (ev : list event) : M unit :=
  λ tr, match refusal tr with
        | Some e => (Raise e, tr)
        | None => (Ok tt, tr ++ ev)
        end.

(** [for x in xs: body x] *)
Fixpoint for_each {A} (body : A → M unit) (xs : list A) : M unit :=
  match xs with
  | [] => mret tt
  | x :: xs' => body x;; for_each body xs'
  end.

(** ** The LLM client *)

Section Client.
Context (env : Env).

(** The [try] block of one attempt: the content when the status is OK. *)
Definition request_once (req : Request) : M (option str) := λ tr,
  let tr' := tr ++ [Call req] in
  match Generation_call env tr req with
  | Replied code content =>
      if (code =? HTTPStatus_OK)%N then (Ok (Some content), tr') else (Ok None, tr')
  | CallRaised _ => (Ok None, tr')
  end.

(** The iterations of [for attempt in range(retries)] that remain. *)
Fixpoint attempts (req : Request) (retries : nat) (delay : N) (remaining : nat)
  : M (option str) :=
  match remaining with
  | O => mret None
  | S remaining' =>
      let attempt := (retries - remaining)%nat in
      r ← request_once req;
      match r with
      | Some content => mret (Some content)
      | None =>
          (if bool_decide (attempt < retries - 1)%nat
           then emit (Sleep delay) else mret tt);;
          attempts req retries delay remaining'
      end
  end.

Definition get_comparison_from_kimi
    (file1_content file2_content file1_name file2_name sheet_name api_key : str)
    (retries : nat) (delay : N) : M (option str) :=
  attempts (Build_Request file1_content file2_content file1_name file2_name
                          sheet_name api_key)
           retries delay retries.
End Client.

(** The defaults of [get_comparison_from_kimi], which its only caller
    relies on. *)
Definition default_retries : nat := 3.
Definition default_delay : N := 5.

(** ** The Markdown table parser of [perform_comparison] *)

(** [[c.strip() for c in line.strip().strip('|').split('|')]] *)
Definition cells (line : str) : list str :=
  strip <$> split pipe (strip_chars [pipe] (strip line)).

(** The loop over [lines[2:]]: a line is kept when it has as many cells as
    the header. *)
Fixpoint data_rows (header : list str) (lines : list str) : list (list str) :=
  match lines with
  | [] => []
  | line :: lines' =>
      let parts := cells line in
      if bool_decide (length parts = length header)
      then parts :: data_rows header lines'
      else data_rows header lines'
  end.

Definition no_difference : str := u"无差异".
Definition difference_column : str := u"差异说明".
Definition no_difference_note : str := u"Kimi报告在此工作表中未发现显著差异。".

(** The branch of a reply with a header and a separator line. *)
Definition table_df (lines : list str) : Table :=
  let header := cells (default [] (lines !! 0)) in
  {| columns := header; rows := data_rows header (drop 2 lines) |}.

(** The branch of a reply whose first line alone looks like a header. *)
Definition header_only_df (line0 : str) : Table :=
  let header := cells line0 in
  let details_df := {| columns := header; rows := [] |} in
  if df_empty details_df
  then setitem difference_column no_difference_note
         (loc0_assign (replicate (length header) no_difference) details_df)
  else details_df.

(** The last branch: the reply is not a table; its text is kept. *)
Definition unparsed_df (sheet_name table_str : str) : Table :=
  {| columns := [u"说明"; u"原始输出"];
     rows := [[u"Kimi报告在工作表 '" ++ sheet_name
                 ++ u"' 中未发现差异或返回格式不正确。";
               table_str]] |}.

Definition separator : str := u"---".

(** [comparison_result.strip()], and its lines. *)
Definition trimmed (comparison_result : str) : str := strip comparison_result.

Definition reply_lines (comparison_result : str) : list str :=
  split newline (strip (trimmed comparison_result)).

Definition parse_reply (sheet_name comparison_result : str) : Table :=
  let table_str := trimmed comparison_result in
  let lines := reply_lines comparison_result in
  let line0 := default [] (lines !! 0) in
  let line1 := default [] (lines !! 1) in
  if bool_decide (1 < length lines) && contains [pipe] line0
     && contains separator line1
  then table_df lines
  else if contains [pipe] line0
  then header_only_df line0
  else unparsed_df sheet_name table_str.

(** ** The overview of a run *)

Inductive Status : Type := Completed | ReadError | NoCommonSheets | ProcessingError.

(** The text written in the column [状态]. *)
Definition status_text (s : Status) : str :=
  match s with
  | Completed => u"已完成"
  | ReadError => u"读取错误"
  | NoCommonSheets => u"无共同工作表"
  | ProcessingError => u"处理错误"
  end.

(** One element of [overview_data]. *)
Record OverviewEntry : Type :=
  { entry_file1 : str; entry_file2 : str; entry_status : Status; entry_note : str }.

(** [pd.DataFrame(overview_data)] *)
Definition overview_df (overview_data : list OverviewEntry) : Table :=
  match overview_data with
  | [] => {| columns := []; rows := [] |}
  | _ =>
      {| columns := [u"文件1"; u"文件2"; u"状态"; u"说明"];
         rows := (λ e, [entry_file1 e; entry_file2 e;
                        status_text (entry_status e); entry_note e])
                 <$> overview_data |}
  end.

(** [itertools.combinations(xs, 2)]: the pairs of elements at positions
    [i < j], in lexicographic order of the positions. *)
Fixpoint combinations2 {A} (xs : list A) : list (A * A) :=
  match xs with
  | [] => []
  | x :: xs' => (pair x <$> xs') ++ combinations2 xs'
  end.

(** ** Comparing one pair of workbooks *)

Section Comparison.
Context (env : Env).

(** [df.to_excel(writer, sheet_name=sheet, index=False)] *)
Definition write_sheet (file sheet : str) (df : Table) : M unit :=
  guarded (λ tr, to_excel env tr file sheet df) [ToExcel file sheet df].

(** [with pd.ExcelWriter(file, engine='xlsxwriter') as writer: body]. The
    writer is closed when the body is left, also by an exception. *)
Definition with_writer {A} (file : str) (body : M A) : M A := λ tr,
  match ExcelWriter env tr file with
  | Some e => (Raise e, tr)
  | None =>
      let '(r, tr') := body (tr ++ [OpenWriter file]) in
      match close env tr' file with
      | Some e => (Raise e, tr')
      | None => (r, tr' ++ [CloseWriter file])
      end
  end.

(** The sheet names of the pair report: [f"{sheet_name[:25]}{suffix}"]. *)
Definition sheet_title (sheet_name suffix : str) : str :=
  prefix_slice 25 sheet_name ++ suffix.

(** The two tables written for a sheet that is the same in both files. *)
Definition same_text (sheet_name : str) : str :=
  u"工作表 '" ++ sheet_name ++ u"' 在两个文件中的内容完全相同。".

Definition same_summary_df (sheet_name : str) : Table :=
  {| columns := [u"总结"]; rows := [[same_text sheet_name]] |}.

Definition same_details_df (sheet_name : str) : Table :=
  {| columns := [u"状态"; u"说明"]; rows := [[u"相同"; same_text sheet_name]] |}.

(** The table written when the client gave no usable reply. *)
Definition no_reply_df (sheet_name : str) : Table :=
  {| columns := [u"错误"];
     rows := [[u"未能从Kimi获取 '" ++ sheet_name ++ u"' 的工作流比较结果。"]] |}.

(** The table written when parsing or saving the reply raised. *)
Definition raw_reply_df (comparison_result : str) : Table :=
  {| columns := [u"原始返回内容"]; rows := [[comparison_result]] |}.

(** [if comparison_result:] *)
Definition truthy (r : option str) : bool :=
  match r with
  | Some (_ :: _) => true
  | _ => false
  end.

(** The body of [for sheet_name in common_sheets]. *)
Definition compare_sheet (file : str) (xls1 xls2 : Workbook)
    (file1_name file2_name api_key sheet_name : str) : M unit :=
  df1 ← lift (parse xls1 sheet_name);
  df2 ← lift (parse xls2 sheet_name);
  if equals df1 df2 then
    write_sheet file (sheet_title sheet_name u"_总结") (same_summary_df sheet_name);;
    write_sheet file (sheet_title sheet_name u"_差异") (same_details_df sheet_name)
  else
    comparison_result ←
      get_comparison_from_kimi env (to_json env df1) (to_json env df2)
        file1_name file2_name sheet_name api_key default_retries default_delay;
    if truthy comparison_result then
      let reply := default [] comparison_result in
      catch
        (let details_df := parse_reply sheet_name reply in
         let title := sheet_title sheet_name u"_差异对比" in
         write_sheet file title details_df;;
         guarded (λ tr, set_column_widths env tr file title details_df) [])
        (λ _, write_sheet file (sheet_title sheet_name u"_原始返回")
                (raw_reply_df reply))
    else
      write_sheet file (sheet_title sheet_name u"_错误") (no_reply_df sheet_name).

(** The sheet [概览] of a pair report. *)
Definition pair_overview_df (sheets1 sheets2 : gset str) : Table :=
  {| columns := [u"状态"; u"工作表名称"];
     rows := [[u"共有工作表"; join u", " (sorted_names (sheets1 ∩ sheets2))];
              [u"仅在文件1中"; join u", " (sorted_names (sheets1 ∖ sheets2))];
              [u"仅在文件2中"; join u", " (sorted_names (sheets2 ∖ sheets1))]] |}.

Definition pair_report_name (output_dir file1_name file2_name : str) : str :=
  path_join output_dir
    (u"Comparison_" ++ file1_name ++ u"_vs_" ++ file2_name ++ u".xlsx").

(** [pd.ExcelFile(path)] *)
Definition read_workbook (path : str) : M Workbook := λ tr,
  (ExcelFile env tr path, tr).

(** The first [try] block of the loop body. *)
Definition open_pair (file1_path file2_path : str)
  : M (Workbook * Workbook * gset str * gset str) :=
  xls1 ← read_workbook file1_path;
  xls2 ← read_workbook file2_path;
  mret (xls1, xls2, set_of (sheet_names xls1), set_of (sheet_names xls2)).

(** The [with] block of the second [try] of the loop body: the pair
    report, one sheet [概览] and then the sheets of each common sheet. *)
Definition write_pair_report (file : str) (xls1 xls2 : Workbook)
    (sheets1 sheets2 : gset str) (file1_name file2_name api_key : str) : M unit :=
  with_writer file
    (write_sheet file u"概览" (pair_overview_df sheets1 sheets2);;
     for_each (compare_sheet file xls1 xls2 file1_name file2_name api_key)
              (sorted_names (sheets1 ∩ sheets2))).

Definition entry (file1_name file2_name : str) (s : Status) (note : str)
  : OverviewEntry :=
  {| entry_file1 := file1_name; entry_file2 := file2_name;
     entry_status := s; entry_note := note |}.

(** The body of [for i, (file1_path, file2_path) in enumerate(file_pairs)];
    it gives the element appended to [overview_data]. *)
Definition compare_pair (output_dir api_key : str) (file_pair : str * str)
  : M OverviewEntry :=
  let '(file1_path, file2_path) := file_pair in
  let file1_name := basename file1_path in
  let file2_name := basename file2_path in
  opened ← attempt (open_pair file1_path file2_path);
  match opened with
  | Raise e => mret (entry file1_name file2_name ReadError e)
  | Ok (xls1, xls2, sheets1, sheets2) =>
      let common_sheets := sorted_names (sheets1 ∩ sheets2) in
      match common_sheets with
      | [] =>
          mret (entry file1_name file2_name NoCommonSheets
                  u"两个文件没有共同的工作表可供比较。")
      | _ =>
          let file := pair_report_name output_dir file1_name file2_name in
          catch
            (write_pair_report file xls1 xls2 sheets1 sheets2
               file1_name file2_name api_key;;
             mret (entry file1_name file2_name Completed
                     (u"比较结果已保存至: " ++ basename file)))
            (λ e, mret (entry file1_name file2_name ProcessingError e))
      end
  end.
End Comparison.

(** ** The orchestrator *)

Section Orchestrator.
Context (env : Env).

(** The [.xlsx] files of the input directory that are not lock files. *)
Definition excel_files (input_dir : str) : list str :=
  filter (λ f, startswith (basename f) u"~$" = false)
         (glob env (path_join input_dir u"*.xlsx")).

(** The loop over [file_pairs], [overview_data] growing by one element
    for each pair. *)
Fixpoint compare_pairs (output_dir api_key : str) (file_pairs : list (str * str))
    (overview_data : list OverviewEntry) : M (list OverviewEntry) :=
  match file_pairs with
  | [] => mret overview_data
  | file_pair :: file_pairs' =>
      e ← compare_pair env output_dir api_key file_pair;
      compare_pairs output_dir api_key file_pairs' (overview_data ++ [e])
  end.

Definition overall_output_filename (output_dir : str) : str :=
  path_join output_dir (u"Overall_Comparison_" ++ timestamp env ++ u".xlsx").

(** The outer [try] block: all pairs, then the sheet [总览]. *)
Definition write_overall (output_dir api_key : str) (file_pairs : list (str * str))
  : M unit :=
  let file := overall_output_filename output_dir in
  with_writer env file
    (overview_data ← compare_pairs output_dir api_key file_pairs [];
     write_sheet env file u"总览" (overview_df overview_data)).

(** [perform_comparison]: the path of the overall report, or [None]. *)
Definition perform_comparison (input_dir output_dir api_key : str)
  : trace → option str * trace := λ tr,
  let files := excel_files input_dir in
  if bool_decide (length files < 2) then (None, tr)
  else
    let file_pairs := combinations2 files in
    match write_overall output_dir api_key file_pairs tr with
    | (Ok _, tr') => (Some (overall_output_filename output_dir), tr')
    | (Raise _, tr') => (None, tr')
    end.

(** ** The entry point, when the button is pressed *)

Inductive Outcome : Type :=
| InvalidInputDir
| InvalidOutputDir
| InvalidApiKey
| Ran (final_report_path : option str).

(** [not s] for a [str]. *)
Definition falsy (s : str) : bool :=
  match s with
  | [] => true
  | _ => false
  end.

Definition main (input_dir output_dir api_key : str) : Outcome * trace :=
  if falsy input_dir || negb (isdir env input_dir) then (InvalidInputDir, [])
  else if falsy output_dir || negb (isdir env output_dir) then (InvalidOutputDir, [])
  else if falsy api_key || negb (contains u"sk-" api_key) then (InvalidApiKey, [])
  else let '(final_report_path, tr) :=
         perform_comparison input_dir output_dir api_key [] in
       (Ran final_report_path, tr).
End Orchestrator.

(** ** The prompt *)

(** A snapshot between its fences, as the prompt holds it. *)
Definition json_fence (content : str) : str :=
  u"```json
" ++ content ++ u"
```".

(** The header line that the prompt demands of the reply. *)
Definition required_header (file1_name file2_name : str) : str :=
  u"| 项目 | 文件1：" ++ file1_name ++ u" | 文件2：" ++ file2_name ++ u" | 差异说明 |".

(** The f-string of [get_comparison_from_kimi]. *)
Definition prompt (file1_content file2_content file1_name file2_name sheet_name : str)
  : str :=
  u"
# 角色
你是一位精通数据比对的数据分析专家。

# 背景
我需要比较两个Excel文件（`"
  ++ file1_name
  ++ u"` 和 `"
  ++ file2_name
  ++ u"`）中，名为 '"
  ++ sheet_name
  ++ u"' 的工作表。你需要帮我精确地识别并总结这两个数据版本之间的所有差异。

# 任务
你的任务是深入、细致地比较以下两个JSON格式的数据内容，它们分别来自两个Excel文件的 '"
  ++ sheet_name
  ++ u"' 工作表。然后，以一个清晰、结构化的Markdown表格形式，总结出所有的不同之处。

# 输入数据
## 文件1: `"
  ++ file1_name
  ++ u"` (工作表: "
  ++ sheet_name
  ++ u")
"
  ++ json_fence file1_content
  ++ u"

## 文件2: `"
  ++ file2_name
  ++ u"` (工作表: "
  ++ sheet_name
  ++ u")
"
  ++ json_fence file2_content
  ++ u"

# 输出要求
1.  **进行思考** (但不要在最终输出中显示思考过程):
    *   首先，通览两个数据集，理解其整体结构。
    *   逐项对比，找出所有差异。差异可能包括但不限于：
        *   **数值或文本不同**: 同一位置的单元格内容不一致。
        *   **存在性差异**: 某处在一个文件中有数据，在另一个文件中为空。
        *   **格式不同**: 内容相似但表达方式或格式有别（例如，“N/A” vs “-”, “1,000” vs “1000”）。
        *   **行或列的增删**: 一个文件可能比另一个文件多或少几行或几列数据。
        *   **逻辑差异**: 例如，一个文件标记为“不适用”，另一个文件却有具体数值。

2.  **格式化输出**:
    *   你 **必须** 以一个Markdown表格来呈现比较结果。
    *   表格的 **表头必须是**：`"
  ++ required_header file1_name file2_name
  ++ u"`
    *   在“项目”列中，清晰地描述差异所在的行、列或字段。
    *   在“差异说明”列中，简要解释差异的类型（例如，“数值不同”、“格式不一致”、“行被移除”等）。
    *   **如果两个文件的工作表内容完全没有差异**，请返回一个仅包含表头的空Markdown表格。
    *   **不要输出任何** 表格之外的文字、解释、总结、标题或代码块标记。你的输出必须从 `| 项目 |` 开始。

# 示例输出格式
请严格遵循以下格式。

| 项目 | 文件1：Report_v2.xlsx | 文件2：Report_v1.xlsx | 差异说明 |
|---|---|---|---|
| **第3行, '销售额'列** | 15,000 | 12,500 | 数值不同 |
| **第5行** | (此行为新增) | (此行不存在) | 文件1新增了一行数据 |
| **'备注'列** | 所有备注均为大写 | 所有备注均为小写 | 文本格式不同 |
".

(** The prompt of a request. *)
Definition prompt_of (q : Request) : str :=
  prompt (req_content1 q) (req_content2 q) (req_name1 q) (req_name2 q) (req_sheet q).

(** ** The widths of the columns of a sheet [_差异对比] *)

(** [min(max((series.astype(str).map(len).max(), len(str(series.name)))) + 2, 50)]
    for a column of text. The maximum over a column without cell is not a
    number, and there is no width then. *)
Definition column_width (name : str) (series : list str) : option nat :=
  match series with
  | [] => None
  | _ => Some ((max_list (length <$> series) `max` length name + 2) `min` 50)
  end.

(** The cells of the column at position [idx]. *)
Definition series_at (idx : nat) (df : Table) : list str :=
  omap (λ row, row !! idx) (rows df).

(** The widths the loop [for idx, col in enumerate(details_df)] sets, for a
    table whose labels are all different. *)
Definition column_widths (df : Table) : list (option nat) :=
  imap (λ idx col, column_width col (series_at idx df)) (columns df).

(** ** The log handler *)

Definition INFO : N := 20.

(** The handlers of the root logger, which lives as long as the process.
    [class StreamlitLogHandler] is a statement of the script: each run of
    the script executes it and makes a class object of its own, [cls]
    here. A handler of this program is an instance of the class object it
    was made from, and holds the container it writes to. *)
Inductive Handler : Type :=
| StreamlitLogHandler (cls : nat) (container : nat)
| OtherHandler.

Record Logger : Type := { logger_level : N; logger_handlers : list Handler }.

(** [isinstance(h, StreamlitLogHandler)], where the name stands for the
    class object [cls] of the run that asks. *)
Definition isinstance (cls : nat) (h : Handler) : bool :=
  match h with
  | StreamlitLogHandler cls' _ => bool_decide (cls' = cls)
  | OtherHandler => false
  end.

(** [setup_logging(container)], in a run of the script whose class object
    is [cls]. *)
Definition setup_logging (cls : nat) (container : nat) (logger : Logger) : Logger :=
  if existsb (isinstance cls) (logger_handlers logger) then logger
  else {| logger_level := INFO;
          logger_handlers := logger_handlers logger
                             ++ [StreamlitLogHandler cls container] |}.

(** ** The session state *)

(** [st.session_state]: each key holds a text or [None]. *)
Definition input_path_key : str := u"input_path".
Definition output_path_key : str := u"output_path".
Definition api_key_key : str := u"api_key".
Definition comparison_results_key : str := u"comparison_results".
Definition final_excel_path_key : str := u"final_excel_path".

(** [if key not in st.session_state: st.session_state[key] = v] *)
Definition set_if_absent (key : str) (v : option str) (state : gmap str (option str))
  : gmap str (option str) :=
  match state !! key with
  | Some _ => state
  | None => <[key := v]> state
  end.

(** The initialisation at the top of the script, run again at each rerun. *)
Definition init_session_state (state : gmap str (option str)) : gmap str (option str) :=
  set_if_absent final_excel_path_key None
    (set_if_absent comparison_results_key None
       (set_if_absent api_key_key (Some [])
          (set_if_absent output_path_key (Some [])
             (set_if_absent input_path_key (Some []) state)))).

(** [st.session_state.get(key)] as the entry point uses it: what is absent
    or [None] is as good as the empty text for the tests that follow. *)
Definition get_text (key : str) (state : gmap str (option str)) : str :=
  match state !! key with
  | Some (Some s) => s
  | _ => []
  end.

(** The branch [if process_button:] of the entry point, with the session
    state: the two results are reset, the inputs are read from the state,
    and [perform_comparison] stores the path of its report when it has one. *)
Definition press_button (env : Env) (state : gmap str (option str))
  : gmap str (option str) * Outcome * trace :=
  let state1 :=
    <[final_excel_path_key := None]> (<[comparison_results_key := None]> state) in
  let '(outcome, tr) :=
    main env (get_text input_path_key state1) (get_text output_path_key state1)
         (get_text api_key_key state1) in
  let state2 :=
    match outcome with
    | Ran (Some path) => <[final_excel_path_key := Some path]> state1
    | _ => state1
    end in
  (state2, outcome, tr).

(** ** Vocabulary of the statements *)

(** An attempt that does not give a reply: a status other than OK, or an
    exception. *)
Definition failed (reply : Reply) : bool :=
  match reply with
  | Replied code _ => negb (code =? HTTPStatus_OK)%N
  | CallRaised _ => true
  end.

(** The requests sent to the model in a trace. *)
Definition calls (tr : trace) : list Request :=
  omap (λ ev, match ev with Call r => Some r | _ => None end) tr.

(** Whatever the trace was, [m] only adds to it, and every request it
    sends satisfies [ok]. *)
Definition sends_only {A} (ok : Request → Prop) (m : M A) : Prop :=
  ∀ tr, ∃ added, (m tr).2 = tr ++ added ∧ Forall ok (calls added).

(** The request [q] is about [sheet_name], whose two tables could be read
    and differ. *)
Definition about_differing_sheet (xls1 xls2 : Workbook) (sheet_name : str)
    (q : Request) : Prop :=
  req_sheet q = sheet_name
  ∧ ∃ df1 df2, parse xls1 sheet_name = Ok df1 ∧ parse xls2 sheet_name = Ok df2
               ∧ df1 ≠ df2.

(** The two file names of an overview entry. *)
Definition names (e : OverviewEntry) : str * str := (entry_file1 e, entry_file2 e).

(** The file names of a pair of paths. *)
Definition basenames (file_pair : str * str) : str * str :=
  (basename file_pair.1, basename file_pair.2).

(** A Markdown table written the way the prompt shows it. *)
Definition render_row (row : list str) : str :=
  u"| " ++ join u" | " row ++ u" |".

Definition render_rule (width : nat) : str :=
  [pipe] ++ mjoin (replicate width u"---|").

Definition render_table (header : list str) (body : list (list str)) : str :=
  join [newline]
    (render_row header :: render_rule (length header) :: (render_row <$> body)).

(** A cell that can be read back: no pipe, no line break, nothing to strip. *)
Definition plain_cell (c : str) : Prop :=
  (pipe ∉ c) ∧ (newline ∉ c) ∧ strip c = c.

Global Instance plain_cell_dec (c : str) : Decision (plain_cell c).
Proof. unfold plain_cell. apply _. Defined.

(** A cell between the spaces that surround it in a row. *)
Definition pad (c : str) : str := u" " ++ c ++ u" ".

(** The columns that the prompt demands. *)
Definition contract_header (file1_name file2_name : str) : list str :=
  [u"项目"; u"文件1：" ++ file1_name; u"文件2：" ++ file2_name; u"差异说明"].

(** The events of [n] attempts that fail and are followed by a sleep. *)
Definition failed_rounds (req : Request) (delay : N) (n : nat) : trace :=
  mjoin (replicate n [Call req; Sleep delay]).

(** Whatever the trace was, [m] only adds to it, and what it adds
    satisfies [P]. *)
Definition adds {A} (P : trace → Prop) (m : M A) : Prop :=
  ∀ tr, ∃ added, (m tr).2 = tr ++ added ∧ P added.

(** Properties of traces that hold of nothing and of what is put end to
    end. *)
Class Composable (P : trace → Prop) : Prop :=
  { composable_nil : P [];
    composable_app : ∀ tr1 tr2, P tr1 → P tr2 → P (tr1 ++ tr2) }.

(** The writers opened and the writers closed in a trace. *)
Definition opened (tr : trace) : list str :=
  omap (λ ev, match ev with OpenWriter file => Some file | _ => None end) tr.

Definition closed (tr : trace) : list str :=
  omap (λ ev, match ev with CloseWriter file => Some file | _ => None end) tr.

(** Every writer opened in the trace is closed in it. *)
Definition balanced (tr : trace) : Prop := opened tr ≡ₚ closed tr.

(** The file an event writes to, and the title of the sheet it writes. *)
Definition file_of (ev : event) : option str :=
  match ev with
  | OpenWriter file | CloseWriter file | ToExcel file _ _ => Some file
  | _ => None
  end.

Definition title_of (ev : event) : option str :=
  match ev with
  | ToExcel _ title _ => Some title
  | _ => None
  end.

(** What a run may do, [names] being the pairs of file names it compares
    and [overall] its overall report: requests with the names of a pair and
    the key, sleeps of the default delay, and operations on the overall
    report or on the report of a pair. *)
Definition run_event (output_dir api_key overall : str) (names : list (str * str))
    (ev : event) : Prop :=
  match ev with
  | Call q => (req_name1 q, req_name2 q) ∈ names ∧ req_api_key q = api_key
  | Sleep seconds => seconds = default_delay
  | OpenWriter file | CloseWriter file =>
      file = overall
      ∨ ∃ n1 n2, (n1, n2) ∈ names ∧ file = pair_report_name output_dir n1 n2
  | ToExcel file title _ =>
      (file = overall ∧ title = u"总览")
      ∨ ∃ n1 n2, (n1, n2) ∈ names ∧ file = pair_report_name output_dir n1 n2
                 ∧ length title ≤ 30
  end.

(** The script run several times in one process, each run given by the
    class object it defines and the container it creates: the calls of
    [setup_logging] that the entry point makes, one for each run. *)
Definition script_runs (runs : list (nat * nat)) (logger : Logger) : Logger :=
  foldl (λ logger run, setup_logging run.1 run.2 logger) logger runs.

Definition handler_of (run : nat * nat) : Handler :=
  StreamlitLogHandler run.1 run.2.

(** ** Sample inputs, on which the statements below are exercised *)

Module Sample.
Definition budget_v1 : Sheet :=
  {| columns := [u"项目"; u"金额"]; rows := [[Text u"房租"; Num 1200]; [Text u"水电"; NaN]] |}.

Definition budget_v2 : Sheet :=
  {| columns := [u"项目"; u"金额"]; rows := [[Text u"房租"; Num 1350]; [Text u"水电"; NaN]] |}.

(** A workbook given by its sheets. *)
Definition book (sheets : list (str * Sheet)) : Workbook :=
  {| sheet_names := sheets.*1;
     parse := λ name,
       match list_find (λ s, s.1 = name) sheets with
       | Some (_, (_, df)) => Ok df
       | None => Raise u"Worksheet not found"
       end |}.

Definition books (path : str) : result Workbook :=
  if bool_decide (path = u"in/A.xlsx")
  then Ok (book [(u"预算", budget_v1); (u"备注", budget_v1)])
  else if bool_decide (path = u"in/B.xlsx")
  then Ok (book [(u"预算", budget_v2); (u"备注", budget_v1); (u"附录", budget_v2)])
  else if bool_decide (path = u"in/C.xlsx")
  then Ok (book [(u"其他", budget_v1)])
  else Raise u"File is not a zip file".

(** An outside in which the directory holds [files], the model always
    gives [reply], and every file operation goes through, except the
    writing of the sheets named in [refused]. *)
Definition world_refusing (refused : list str) (files : list str) (reply : Reply)
  : Env :=
  {| glob := λ _, files;
     isdir := λ _, true;
     timestamp := u"20240101_093000";
     ExcelFile := λ _ path, books path;
     to_json := λ _, u"[]";
     Generation_call := λ _ _, reply;
     ExcelWriter := λ _ _, None;
     to_excel := λ _ _ sheet _,
       if bool_decide (sheet ∈ refused) then Some u"Permission denied" else None;
     set_column_widths := λ _ _ _ _, None;
     close := λ _ _, None |}.

Definition world : list str → Reply → Env := world_refusing [].

Definition three_files : list str :=
  [u"in/A.xlsx"; u"in/~$A.xlsx"; u"in/B.xlsx"; u"in/C.xlsx"].

Definition four_files : list str := three_files ++ [u"in/D.xlsx"].

Definition one_file : list str := [u"in/A.xlsx"; u"in/~$A.xlsx"].

Definition overloaded : Reply := Replied 429 u"".

Definition table_reply : str :=
  u"| 项目 | 文件1：A.xlsx | 文件2：B.xlsx | 差异说明 |
|---|---|---|---|
| 第1行, '金额'列 | 1200 | 1350 | 数值不同 |
| 第2行 | 多余 | 的 | 单元格 | 数值不同 |
| 第3行 | 缺少单元格 |
".

Definition header_reply : str := u"| 项目 | 文件1：A.xlsx | 文件2：B.xlsx | 差异说明 |".

Definition plain_header_reply : str := u"| A | B |".

Definition prose_reply : str := u"  两个工作表没有差异。
".
End Sample.

(** ** More sample inputs *)

Module Sample2.
(** The table that the prompt gives as an example. *)
Definition example_header : list str :=
  [u"项目"; u"文件1：Report_v2.xlsx"; u"文件2：Report_v1.xlsx"; u"差异说明"].

Definition example_body : list (list str) :=
  [[u"**第3行, '销售额'列**"; u"15,000"; u"12,500"; u"数值不同"];
   [u"**第5行**"; u"(此行为新增)"; u"(此行不存在)"; u"文件1新增了一行数据"];
   [u"**'备注'列**"; u"所有备注均为大写"; u"所有备注均为小写"; u"文本格式不同"]].

(** An outside in which the model gives a table at the second attempt. *)
Definition second_time_lucky : Env :=
  {| glob := λ _, Sample.three_files;
     isdir := λ _, true;
     timestamp := u"20240101_093000";
     ExcelFile := λ _ path, Sample.books path;
     to_json := λ _, u"[]";
     Generation_call := λ tr _,
       match calls tr with
       | [] => CallRaised u"Connection reset"
       | _ => Replied 200 Sample.table_reply
       end;
     ExcelWriter := λ _ _, None;
     to_excel := λ _ _ _ _, None;
     set_column_widths := λ _ _ _ _, None;
     close := λ _ _, None |}.

Definition session : gmap str (option str) :=
  {[ input_path_key := Some u"in"; final_excel_path_key := Some u"out/old.xlsx" ]}.
End Sample2.

(** * Properties *)

(** ** The parser *)

Lemma overwrite_replicate {C} (label : str) (v x : C) (labels : list str) :
  overwrite label v labels (replicate (length labels) x)
  = (λ l, if bool_decide (l = label) then v else x) <$> labels.
Proof.
  induction labels as [|l labels IH]; simpl; [done|]. by rewrite IH.
Qed.

Lemma data_rows_filter (header : list str) (lines : list str) :
  data_rows header lines
  = cells <$> filter (λ line, length (cells line) = length header) lines.
Proof.
  induction lines as [|line lines IH]; simpl; [done|].
  rewrite filter_cons. case_bool_decide; case_decide; try done.
  by rewrite fmap_cons, IH.
Qed.

Lemma header_only_df_eq (line0 : str) :
  header_only_df line0
  = setitem difference_column no_difference_note
      {| columns := cells line0;
         rows := [replicate (length (cells line0)) no_difference] |}.
Proof.
  unfold header_only_df, df_empty. simpl. by destruct (cells line0).
Qed.

Lemma parse_reply_single (sheet_name r line0 : str) :
  reply_lines r = [line0] → contains [pipe] line0 = true →
  parse_reply sheet_name r = header_only_df line0.
Proof.
  intros Hl Hp. unfold parse_reply. rewrite Hl. simpl. by rewrite Hp.
Qed.

Lemma reply_without_pipe_kept_as_text (sheet_name r : str) :
  contains [pipe] (default [] (reply_lines r !! 0)) = false →
  parse_reply sheet_name r = unparsed_df sheet_name (strip r).
Proof.
  intros Hp. unfold parse_reply. rewrite Hp. by rewrite andb_false_r.
Qed.

(** C4, as amended. A reply whose first line, once the reply is trimmed,
    holds no pipe is not parsed, however many lines it has: the table built
    for it has one row, which carries the trimmed text of the reply in the
    column [原始输出]. *)
Theorem reply_without_pipe_is_kept (sheet_name r : str) :
  contains [pipe] (default [] (reply_lines r !! 0)) = false →
  parse_reply sheet_name r
  = {| columns := [u"说明"; u"原始输出"];
       rows := [[u"Kimi报告在工作表 '" ++ sheet_name
                   ++ u"' 中未发现差异或返回格式不正确。";
                 strip r]] |}.
Proof. apply reply_without_pipe_kept_as_text. Qed.

Lemma reply_without_pipe_is_kept_witness :
  parse_reply u"预算" Sample.prose_reply
  = {| columns := [u"说明"; u"原始输出"];
       rows := [[u"Kimi报告在工作表 '预算' 中未发现差异或返回格式不正确。";
                 u"两个工作表没有差异。"]] |}.
Proof.
  rewrite (reply_without_pipe_is_kept u"预算" Sample.prose_reply).
  - vm_compute. reflexivity.
  - vm_compute. reflexivity.
Defined.

(** C4, as stated, fails on a reply of one line that holds a pipe: it has
    fewer than two lines and is not empty, and yet it is read as a header,
    not kept as unparsed text. *)
Lemma one_line_header_is_parsed :
  ¬ (Sample.plain_header_reply ≠ []
     ∧ (length (reply_lines Sample.plain_header_reply) < 2
        ∨ contains [pipe] (default [] (reply_lines Sample.plain_header_reply !! 0))
          = false)
     → parse_reply u"预算" Sample.plain_header_reply
       = unparsed_df u"预算" Sample.plain_header_reply).
Proof.
  intros H. assert (Hc : columns (parse_reply u"预算" Sample.plain_header_reply)
                         = columns (unparsed_df u"预算" Sample.plain_header_reply)).
  { f_equal. apply H. split; [vm_compute; discriminate|]. left. vm_compute. lia. }
  vm_compute in Hc. discriminate Hc.
Qed.

(** C5. When the trimmed reply has a first line with a pipe and a second
    line with a separator, the columns are the cells of the first line and
    the rows are the cells of the lines after the second one that have as
    many cells as the header, in their order and unchanged; every other
    line is left out. *)
Theorem data_row_kept_iff_width_matches (sheet_name r : str) :
  let lines := reply_lines r in
  let header := cells (default [] (lines !! 0)) in
  let details_df := parse_reply sheet_name r in
  1 < length lines →
  contains [pipe] (default [] (lines !! 0)) = true →
  contains separator (default [] (lines !! 1)) = true →
  columns details_df = header
  ∧ rows details_df
    = cells <$> filter (λ line, length (cells line) = length header) (drop 2 lines)
  ∧ (∀ line, line ∈ drop 2 lines →
       cells line ∈ rows details_df ↔ length (cells line) = length header)
  ∧ Forall (λ row, length row = length header) (rows details_df).
Proof.
  intros lines header details_df Hn Hp Hs.
  assert (Hdf : details_df = table_df lines).
  { unfold details_df, parse_reply. fold lines. rewrite Hp, Hs.
    by rewrite bool_decide_eq_true_2. }
  assert (Hrows : rows details_df
    = cells <$> filter (λ line, length (cells line) = length header) (drop 2 lines)).
  { rewrite Hdf. unfold table_df. cbn [rows]. apply data_rows_filter. }
  split; [by rewrite Hdf|]. split; [done|]. split.
  - intros line Hin. rewrite Hrows. split.
    + intros (line' & Heq & Hin')%list_elem_of_fmap.
      apply list_elem_of_filter in Hin' as [Hlen _]. by rewrite Heq.
    + intros Hlen. apply list_elem_of_fmap. exists line. split; [done|].
      by apply list_elem_of_filter.
  - rewrite Hrows. apply Forall_forall.
    intros row (line' & -> & Hin')%list_elem_of_fmap.
    by apply list_elem_of_filter in Hin' as [Hlen _].
Qed.

Lemma data_row_kept_iff_width_matches_witness :
  parse_reply u"预算" Sample.table_reply
  = {| columns := [u"项目"; u"文件1：A.xlsx"; u"文件2：B.xlsx"; u"差异说明"];
       rows := [[u"第1行, '金额'列"; u"1200"; u"1350"; u"数值不同"]] |}.
Proof.
  pose proof (data_row_kept_iff_width_matches u"预算" Sample.table_reply) as H.
  cbv zeta in H. destruct H as (Hc & Hr & _).
  - vm_compute. lia.
  - vm_compute. reflexivity.
  - vm_compute. reflexivity.
  - destruct (parse_reply u"预算" Sample.table_reply) as [c rws].
    cbn [columns rows] in Hc, Hr. rewrite Hc, Hr. vm_compute. reflexivity.
Defined.

Lemma parse_reply_header_only (sheet_name r : str) :
  let lines := reply_lines r in
  contains [pipe] (default [] (lines !! 0)) = true →
  bool_decide (1 < length lines) && contains separator (default [] (lines !! 1))
  = false →
  parse_reply sheet_name r = header_only_df (default [] (lines !! 0)).
Proof.
  intros lines Hp Hs. unfold parse_reply. fold lines.
  by rewrite Hp, andb_true_r, Hs.
Qed.

(** C6. A reply that is one line holding a pipe gives first the table with
    the cells of that line as columns and no row, which is empty; the table
    written has exactly one row, made of [无差异] and of the note that no
    difference was found, under columns that include the header. *)
Theorem single_header_line_gets_placeholder_row (sheet_name r line0 : str) :
  reply_lines r = [line0] → contains [pipe] line0 = true →
  let header := cells line0 in
  let details_df := {| columns := header; rows := [] |} in
  parse_reply sheet_name r
  = setitem difference_column no_difference_note
      (loc0_assign (replicate (length header) no_difference) details_df)
  ∧ df_empty details_df = true
  ∧ header ⊆ columns (parse_reply sheet_name r)
  ∧ rows (parse_reply sheet_name r)
    = [ if bool_decide (difference_column ∈ header)
        then (λ h, if bool_decide (h = difference_column)
                   then no_difference_note else no_difference) <$> header
        else replicate (length header) no_difference ++ [no_difference_note] ].
Proof.
  intros Hl Hp header details_df.
  rewrite (parse_reply_single _ _ _ Hl Hp), header_only_df_eq.
  fold header. unfold setitem, loc0_assign. cbn [columns rows].
  split; [done|]. split; [by unfold df_empty; cbn; destruct header|].
  case_bool_decide; cbn [columns rows fmap list_fmap].
  - split; [by intros h Hh|]. by rewrite overwrite_replicate.
  - split; [|done]. intros h Hh. apply elem_of_app. by left.
Qed.

Lemma single_header_line_gets_placeholder_row_witness :
  parse_reply u"预算" Sample.plain_header_reply
  = {| columns := [u"A"; u"B"; u"差异说明"];
       rows := [[u"无差异"; u"无差异"; u"Kimi报告在此工作表中未发现显著差异。"]] |}.
Proof.
  destruct (single_header_line_gets_placeholder_row
              u"预算" Sample.plain_header_reply u"| A | B |") as (H & _).
  - vm_compute. reflexivity.
  - vm_compute. reflexivity.
  - rewrite H. vm_compute. reflexivity.
Defined.

(** C10. In the branch of a header without table, the table written always
    has a column [差异说明]: one column more than the header when the
    header lacks it, the columns of the header when it has it; its row has
    one cell for each column. *)
Theorem placeholder_row_writes_difference_column (sheet_name r : str) :
  let lines := reply_lines r in
  let header := cells (default [] (lines !! 0)) in
  let details_df := parse_reply sheet_name r in
  contains [pipe] (default [] (lines !! 0)) = true →
  bool_decide (1 < length lines) && contains separator (default [] (lines !! 1))
  = false →
  difference_column ∈ columns details_df
  ∧ (difference_column ∉ header →
       columns details_df = header ++ [difference_column]
       ∧ length (columns details_df) = S (length header))
  ∧ (difference_column ∈ header → columns details_df = header)
  ∧ Forall (λ row, length row = length (columns details_df)) (rows details_df).
Proof.
  intros lines header details_df Hp Hs. unfold details_df.
  rewrite (parse_reply_header_only _ _ Hp Hs), header_only_df_eq.
  fold lines header. unfold setitem. cbn [columns rows].
  destruct (decide (difference_column ∈ header)) as [Hin|Hin];
    [rewrite (bool_decide_eq_true_2 _ Hin)|rewrite (bool_decide_eq_false_2 _ Hin)];
    cbn [columns rows fmap list_fmap].
  - split; [done|]. split; [done|]. split; [done|].
    apply Forall_singleton. by rewrite overwrite_replicate, length_fmap.
  - split; [apply elem_of_app; right; by apply list_elem_of_singleton|].
    split; [intros _; split; [done|rewrite length_app; cbn [length]; lia]|].
    split; [done|].
    apply Forall_singleton.
    rewrite !length_app, length_replicate. done.
Qed.

Lemma placeholder_row_writes_difference_column_witness :
  columns (parse_reply u"预算" Sample.header_reply)
  = [u"项目"; u"文件1：A.xlsx"; u"文件2：B.xlsx"; u"差异说明"]
  ∧ columns (parse_reply u"预算" Sample.plain_header_reply)
    = [u"A"; u"B"; u"差异说明"].
Proof.
  split.
  - destruct (placeholder_row_writes_difference_column u"预算" Sample.header_reply)
      as (_ & _ & H & _).
    + vm_compute. reflexivity.
    + vm_compute. reflexivity.
    + rewrite H; [vm_compute; reflexivity|].
      apply list_elem_of_In. vm_compute. tauto.
  - destruct (placeholder_row_writes_difference_column u"预算" Sample.plain_header_reply)
      as (_ & H & _ & _).
    + vm_compute. reflexivity.
    + vm_compute. reflexivity.
    + destruct H as [H _]; [|rewrite H; vm_compute; reflexivity].
      intros Hin%list_elem_of_In. vm_compute in Hin.
      destruct Hin as [Hin|[Hin|[]]]; discriminate Hin.
Defined.

(** ** The client *)

Lemma request_once_eq (env : Env) (req : Request) (tr : trace) :
  request_once env req tr
  = (Ok (if failed (Generation_call env tr req) then None
         else match Generation_call env tr req with
              | Replied _ content => Some content
              | CallRaised _ => None
              end),
     tr ++ [Call req]).
Proof.
  unfold request_once, failed.
  destruct (Generation_call env tr req) as [code content|e]; [|done].
  by destruct (code =? HTTPStatus_OK)%N.
Qed.

Lemma attempts_step (env : Env) (req : Request) (retries : nat) (delay : N)
    (remaining : nat) (tr : trace) :
  attempts env req retries delay (S remaining) tr
  = if failed (Generation_call env tr req)
    then attempts env req retries delay remaining
           (if bool_decide (retries - S remaining < retries - 1)
            then tr ++ [Call req; Sleep delay] else tr ++ [Call req])
    else match Generation_call env tr req with
         | Replied _ content => (Ok (Some content), tr ++ [Call req])
         | CallRaised _ => (Ok None, tr ++ [Call req])
         end.
Proof.
  cbn [attempts]. unfold mbind, M_bind at 1. rewrite request_once_eq.
  destruct (failed (Generation_call env tr req)) eqn:Hf.
  - unfold mbind, M_bind, emit, mret, M_ret.
    case_bool_decide; [|done]. by rewrite <- app_assoc.
  - destruct (Generation_call env tr req); [done|discriminate Hf].
Qed.

(** C3. With the default three attempts and five seconds, when the three
    requests fail the client has sent exactly three requests with a sleep of
    five seconds after the first and after the second, none after the third,
    and gives [None]; and it gives [None] in no other case. *)
Theorem client_fails_after_three_attempts_two_sleeps
    (env : Env) (c1 c2 n1 n2 sheet api_key : str) (tr : trace) :
  let req := Build_Request c1 c2 n1 n2 sheet api_key in
  let run := get_comparison_from_kimi env c1 c2 n1 n2 sheet api_key
               default_retries default_delay tr in
  let tr1 := tr ++ [Call req; Sleep 5] in
  let tr2 := tr ++ [Call req; Sleep 5; Call req; Sleep 5] in
  let sustained_failure :=
    failed (Generation_call env tr req) = true
    ∧ failed (Generation_call env tr1 req) = true
    ∧ failed (Generation_call env tr2 req) = true in
  (run.1 = Ok None ↔ sustained_failure)
  ∧ (sustained_failure →
       run = (Ok None, tr ++ [Call req; Sleep 5; Call req; Sleep 5; Call req])).
Proof.
  intros req run tr1 tr2 sustained.
  assert (Hrun : run =
    if failed (Generation_call env tr req) then
      if failed (Generation_call env tr1 req) then
        if failed (Generation_call env tr2 req) then
          (Ok None, tr ++ [Call req; Sleep 5; Call req; Sleep 5; Call req])
        else match Generation_call env tr2 req with
             | Replied _ content => (Ok (Some content), tr2 ++ [Call req])
             | CallRaised _ => (Ok None, tr2 ++ [Call req])
             end
      else match Generation_call env tr1 req with
           | Replied _ content => (Ok (Some content), tr1 ++ [Call req])
           | CallRaised _ => (Ok None, tr1 ++ [Call req])
           end
    else match Generation_call env tr req with
         | Replied _ content => (Ok (Some content), tr ++ [Call req])
         | CallRaised _ => (Ok None, tr ++ [Call req])
         end).
  { unfold run, get_comparison_from_kimi, default_retries, default_delay.
    fold req. rewrite attempts_step. cbn [bool_decide decide_rel Nat.sub].
    destruct (failed (Generation_call env tr req)); [|done].
    rewrite bool_decide_eq_true_2 by lia. fold tr1.
    rewrite attempts_step.
    destruct (failed (Generation_call env tr1 req)); [|done].
    rewrite bool_decide_eq_true_2 by lia.
    unfold tr1. rewrite <- app_assoc. cbn [app]. fold tr2.
    rewrite attempts_step.
    destruct (failed (Generation_call env tr2 req)); [|done].
    rewrite bool_decide_eq_false_2 by (cbn; lia).
    unfold tr2. rewrite <- app_assoc. done. }
  rewrite Hrun. unfold sustained. clear Hrun run sustained.
  destruct (failed (Generation_call env tr req)) eqn:F0;
    [destruct (failed (Generation_call env tr1 req)) eqn:F1;
     [destruct (failed (Generation_call env tr2 req)) eqn:F2|]|].
  - done.
  - destruct (Generation_call env tr2 req); [|discriminate F2].
    split; [split; [discriminate 1|intros (_ & _ & ?); discriminate]|].
    intros (_ & _ & ?); discriminate.
  - destruct (Generation_call env tr1 req); [|discriminate F1].
    split; [split; [discriminate 1|intros (_ & ? & _); discriminate]|].
    intros (_ & ? & _); discriminate.
  - destruct (Generation_call env tr req); [|discriminate F0].
    split; [split; [discriminate 1|intros (? & _ & _); discriminate]|].
    intros (? & _ & _); discriminate.
Qed.

Lemma client_fails_after_three_attempts_two_sleeps_witness :
  let req := Build_Request u"[1]" u"[2]" u"A.xlsx" u"B.xlsx" u"预算" u"sk-0" in
  get_comparison_from_kimi (Sample.world Sample.three_files Sample.overloaded)
    u"[1]" u"[2]" u"A.xlsx" u"B.xlsx" u"预算" u"sk-0" default_retries default_delay []
  = (Ok None, [Call req; Sleep 5; Call req; Sleep 5; Call req]).
Proof.
  intros req.
  apply (client_fails_after_three_attempts_two_sleeps
           (Sample.world Sample.three_files Sample.overloaded)
           u"[1]" u"[2]" u"A.xlsx" u"B.xlsx" u"预算" u"sk-0" []).
  repeat split; vm_compute; reflexivity.
Defined.

Lemma attempts_never_raises (env : Env) (req : Request) (retries : nat) (delay : N)
    (remaining : nat) (tr : trace) :
  ∃ r tr', attempts env req retries delay remaining tr = (Ok r, tr').
Proof.
  revert tr. induction remaining as [|remaining IH]; intros tr; [by eexists _, _|].
  rewrite attempts_step. destruct (failed (Generation_call env tr req)); [apply IH|].
  destruct (Generation_call env tr req); by eexists _, _.
Qed.

(** ** What a computation sends *)

Lemma calls_app (tr1 tr2 : trace) : calls (tr1 ++ tr2) = calls tr1 ++ calls tr2.
Proof. apply omap_app. Qed.

Section SendsOnly.
Context (ok : Request → Prop).

Lemma sends_only_ret {A} (a : A) : sends_only ok (mret a).
Proof. intros tr. exists []. by rewrite app_nil_r. Qed.

Lemma sends_only_lift {A} (r : result A) : sends_only ok (lift r).
Proof. intros tr. exists []. by rewrite app_nil_r. Qed.

Lemma sends_only_bind {A B} (m : M A) (f : A → M B) :
  sends_only ok m → (∀ a, sends_only ok (f a)) → sends_only ok (m ≫= f).
Proof.
  intros Hm Hf tr. unfold mbind, M_bind.
  destruct (Hm tr) as (added & Htr & Hok).
  destruct (m tr) as [[a|e] tr1]; cbn [snd] in Htr; subst tr1.
  - destruct (Hf a (tr ++ added)) as (added' & Htr' & Hok').
    exists (added ++ added'). rewrite Htr', app_assoc. split; [done|].
    rewrite calls_app. by apply Forall_app.
  - by exists added.
Qed.

Lemma sends_only_catch {A} (m : M A) (h : exn → M A) :
  sends_only ok m → (∀ e, sends_only ok (h e)) → sends_only ok (catch m h).
Proof.
  intros Hm Hh tr. unfold catch.
  destruct (Hm tr) as (added & Htr & Hok).
  destruct (m tr) as [[a|e] tr1]; cbn [snd] in Htr; subst tr1.
  - by exists added.
  - destruct (Hh e (tr ++ added)) as (added' & Htr' & Hok').
    exists (added ++ added'). rewrite Htr', app_assoc. split; [done|].
    rewrite calls_app. by apply Forall_app.
Qed.

Lemma sends_only_attempt {A} (m : M A) :
  sends_only ok m → sends_only ok (attempt m).
Proof.
  intros Hm tr. unfold attempt. destruct (Hm tr) as (added & Htr & Hok).
  destruct (m tr) as [r tr1]. by exists added.
Qed.

Lemma sends_only_guarded (refusal : trace → option exn) (evs : list event) :
  calls evs = [] → sends_only ok (guarded refusal evs).
Proof.
  intros Hc tr. unfold guarded. destruct (refusal tr).
  - exists []. by rewrite app_nil_r.
  - exists evs. by rewrite Hc.
Qed.

Lemma sends_only_for_each {A} (body : A → M unit) (xs : list A) :
  (∀ x, x ∈ xs → sends_only ok (body x)) → sends_only ok (for_each body xs).
Proof.
  induction xs as [|x xs IH]; intros Hb; cbn [for_each].
  - apply sends_only_ret.
  - apply sends_only_bind; [apply Hb; by left|]. intros _. apply IH.
    intros y Hy. apply Hb. by right.
Qed.
End SendsOnly.

Lemma sends_only_mono {A} (ok ok' : Request → Prop) (m : M A) :
  (∀ q, ok q → ok' q) → sends_only ok m → sends_only ok' m.
Proof.
  intros Himp Hm tr. destruct (Hm tr) as (added & Htr & Hok).
  exists added. split; [done|]. by eapply Forall_impl.
Qed.

Create HintDb sends discriminated.

Lemma sends_only_request_once (env : Env) (ok : Request → Prop) (req : Request) :
  ok req → sends_only ok (request_once env req).
Proof.
  intros Hok tr. exists [Call req]. unfold request_once. split.
  - destruct (Generation_call env tr req) as [code content|e]; [|done].
    by destruct (code =? HTTPStatus_OK)%N.
  - by apply Forall_singleton.
Qed.

Lemma sends_only_emit_sleep (ok : Request → Prop) (delay : N) :
  sends_only ok (emit (Sleep delay)).
Proof. intros tr. by exists [Sleep delay]. Qed.

#[export] Hint Resolve sends_only_ret sends_only_lift sends_only_bind sends_only_catch
  sends_only_attempt sends_only_guarded sends_only_for_each
  sends_only_emit_sleep : sends.

Lemma sends_only_attempts (env : Env) (ok : Request → Prop) (req : Request)
    (retries : nat) (delay : N) (remaining : nat) :
  ok req → sends_only ok (attempts env req retries delay remaining).
Proof.
  intros Hok. induction remaining as [|remaining IH]; cbn [attempts].
  - apply sends_only_ret.
  - apply sends_only_bind; [by apply sends_only_request_once|].
    intros [content|]; [apply sends_only_ret|].
    apply sends_only_bind; [|done].
    case_bool_decide; auto with sends.
Qed.

Lemma sends_only_write_sheet (env : Env) (ok : Request → Prop)
    (file sheet : str) (df : Table) :
  sends_only ok (write_sheet env file sheet df).
Proof. by apply sends_only_guarded. Qed.

Lemma sends_only_with_writer {A} (env : Env) (ok : Request → Prop)
    (file : str) (body : M A) :
  sends_only ok body → sends_only ok (with_writer env file body).
Proof.
  intros Hb tr. unfold with_writer.
  destruct (ExcelWriter env tr file); [exists []; by rewrite app_nil_r|].
  destruct (Hb (tr ++ [OpenWriter file])) as (added & Htr & Hok).
  destruct (body (tr ++ [OpenWriter file])) as [r tr1]. cbn [snd] in Htr. subst tr1.
  destruct (close env _ file); cbn [snd].
  - exists (OpenWriter file :: added). by rewrite <- app_assoc.
  - exists ([OpenWriter file] ++ added ++ [CloseWriter file]).
    rewrite <- !app_assoc. split; [done|].
    rewrite !calls_app.
    change (calls [OpenWriter file]) with (@nil Request).
    change (calls [CloseWriter file]) with (@nil Request).
    by rewrite app_nil_r.
Qed.

#[export] Hint Resolve sends_only_write_sheet sends_only_with_writer : sends.

Lemma sends_only_lift_bind {A B} (ok : Request → Prop) (r : result A) (f : A → M B) :
  (∀ a, r = Ok a → sends_only ok (f a)) → sends_only ok (lift r ≫= f).
Proof.
  intros Hf tr. unfold mbind, M_bind, lift. destruct r as [a|e].
  - by apply Hf.
  - exists []. by rewrite app_nil_r.
Qed.

Lemma sends_only_compare_sheet (env : Env) (file : str) (xls1 xls2 : Workbook)
    (file1_name file2_name api_key sheet_name : str) :
  sends_only (about_differing_sheet xls1 xls2 sheet_name)
    (compare_sheet env file xls1 xls2 file1_name file2_name api_key sheet_name).
Proof.
  unfold compare_sheet.
  apply sends_only_lift_bind. intros df1 H1.
  apply sends_only_lift_bind. intros df2 H2.
  unfold equals. case_bool_decide as Heq; [auto with sends|].
  apply sends_only_bind.
  - apply sends_only_attempts. split; [done|]. by exists df1, df2.
  - intros r. destruct (truthy r); auto 6 with sends.
Qed.

Lemma sends_only_write_pair_report (env : Env) (file : str) (xls1 xls2 : Workbook)
    (sheets1 sheets2 : gset str) (file1_name file2_name api_key : str) :
  sends_only (λ q, req_sheet q ∈ sheets1 ∩ sheets2
                   ∧ about_differing_sheet xls1 xls2 (req_sheet q) q)
    (write_pair_report env file xls1 xls2 sheets1 sheets2
       file1_name file2_name api_key).
Proof.
  apply sends_only_with_writer, sends_only_bind; [auto with sends|]. intros _.
  apply sends_only_for_each. intros sheet_name Hin.
  eapply sends_only_mono; [|apply sends_only_compare_sheet].
  intros q Hq. pose proof Hq as [<- _]. split; [|done].
  unfold sorted_names in Hin. rewrite merge_sort_Permutation in Hin.
  by apply elem_of_elements in Hin.
Qed.

(** ** One sheet *)

Section Sheet.
Context (env : Env) (file : str) (xls1 xls2 : Workbook).
Context (file1_name file2_name api_key sheet_name : str).
Context (df1 df2 : Sheet).
Context (Hdf1 : parse xls1 sheet_name = Ok df1).
Context (Hdf2 : parse xls2 sheet_name = Ok df2).

Let compare := compare_sheet env file xls1 xls2 file1_name file2_name api_key
                 sheet_name.
Let ask := get_comparison_from_kimi env (to_json env df1) (to_json env df2)
             file1_name file2_name sheet_name api_key default_retries default_delay.

Lemma compare_sheet_same (tr : trace) :
  df1 = df2 →
  compare tr
  = (write_sheet env file (sheet_title sheet_name u"_总结") (same_summary_df sheet_name);;
     write_sheet env file (sheet_title sheet_name u"_差异") (same_details_df sheet_name)) tr.
Proof.
  intros Heq. unfold compare, compare_sheet, lift.
  unfold mbind at 1, M_bind at 1. rewrite Hdf1.
  unfold mbind at 1, M_bind at 1. rewrite Hdf2.
  unfold equals. by rewrite bool_decide_eq_true_2.
Qed.

Lemma compare_sheet_differ (tr : trace) :
  df1 ≠ df2 →
  compare tr
  = (comparison_result ← ask;
     if truthy comparison_result then
       let reply := default [] comparison_result in
       catch
         (let details_df := parse_reply sheet_name reply in
          let title := sheet_title sheet_name u"_差异对比" in
          write_sheet env file title details_df;;
          guarded (λ tr, set_column_widths env tr file title details_df) [])
         (λ _, write_sheet env file (sheet_title sheet_name u"_原始返回")
                 (raw_reply_df reply))
     else
       write_sheet env file (sheet_title sheet_name u"_错误")
         (no_reply_df sheet_name)) tr.
Proof.
  intros Hne. unfold compare, compare_sheet, lift.
  unfold mbind at 1, M_bind at 1. rewrite Hdf1.
  unfold mbind at 1, M_bind at 1. rewrite Hdf2.
  unfold equals. by rewrite bool_decide_eq_false_2.
Qed.

(** The client gave nothing: the sheet [_错误] is written. *)
Lemma compare_sheet_no_reply (tr tr1 : trace) (r : option str) :
  df1 ≠ df2 → ask tr = (Ok r, tr1) → truthy r = false →
  let title := sheet_title sheet_name u"_错误" in
  to_excel env tr1 file title (no_reply_df sheet_name) = None →
  compare tr = (Ok tt, tr1 ++ [ToExcel file title (no_reply_df sheet_name)]).
Proof.
  intros Hne Hask Hr title Hw. rewrite compare_sheet_differ by done.
  unfold mbind, M_bind. rewrite Hask, Hr.
  unfold write_sheet, guarded. fold title. by rewrite Hw.
Qed.

(** The client gave a reply: the table read from it is written in the
    sheet [_差异对比]. *)
Lemma compare_sheet_reply (tr tr1 : trace) (reply : str) :
  df1 ≠ df2 → ask tr = (Ok (Some reply), tr1) → reply ≠ [] →
  let title := sheet_title sheet_name u"_差异对比" in
  let details_df := parse_reply sheet_name reply in
  to_excel env tr1 file title details_df = None →
  set_column_widths env (tr1 ++ [ToExcel file title details_df]) file title details_df
  = None →
  compare tr = (Ok tt, tr1 ++ [ToExcel file title details_df]).
Proof.
  intros Hne Hask Hr title details_df Hw Hc. rewrite compare_sheet_differ by done.
  unfold mbind at 1, M_bind at 1. rewrite Hask.
  destruct reply as [|c reply']; [done|]. cbn [truthy].
  change (default [] (Some (c :: reply'))) with (c :: reply').
  unfold catch, mbind, M_bind, write_sheet, guarded.
  fold title details_df. rewrite Hw, Hc. by rewrite app_nil_r.
Qed.
End Sheet.

(** A loop that ends without exception has made the turn of each of its
    elements, in a trace that only grew. *)
Lemma for_each_turn {A} (ok : Request → Prop) (body : A → M unit) (xs : list A)
    (x : A) (tr tr' : trace) :
  (∀ a, sends_only ok (body a)) →
  x ∈ xs → for_each body xs tr = (Ok tt, tr') →
  ∃ before mid after,
    body x (tr ++ before) = (Ok tt, tr ++ before ++ mid)
    ∧ tr' = tr ++ before ++ mid ++ after.
Proof.
  intros Hbody. revert tr. induction xs as [|a xs IH]; intros tr Hin Hrun.
  { by apply elem_of_nil in Hin. }
  cbn [for_each] in Hrun. unfold mbind, M_bind in Hrun.
  destruct (Hbody a tr) as (added & Ha & _).
  destruct (body a tr) as [[[]|e] tr1] eqn:Hturn; [|discriminate Hrun].
  cbn [snd] in Ha. subst tr1.
  apply elem_of_cons in Hin as [->|Hin].
  - destruct (sends_only_for_each ok body xs (λ y _, Hbody y) (tr ++ added))
      as (after & Hafter & _).
    rewrite Hrun in Hafter. cbn [snd] in Hafter.
    exists [], added, after. rewrite !app_nil_r. split; [done|].
    by rewrite Hafter, <- app_assoc.
  - destruct (IH (tr ++ added) Hin Hrun) as (before & mid & after & Hx & Htr').
    exists (added ++ before), mid, after.
    rewrite <- !app_assoc in Hx. rewrite <- !app_assoc in Htr'.
    rewrite <- !app_assoc. by split.
Qed.

(** C2. A common sheet with the same table in both workbooks is never sent
    to the model: its turn of the loop sends nothing and writes nothing but
    its two sheets, its summary in [_总结] and the status [相同] in [_差异],
    both written whenever the writer accepts them; in the whole pair
    report no request is about that sheet; and a pair report that is
    completed holds these two sheets, written one after the other between
    the opening and the closing of the report. *)
Theorem identical_sheet_skips_the_model
    (env : Env) (file : str) (xls1 xls2 : Workbook)
    (file1_name file2_name api_key sheet_name : str) (df1 df2 : Sheet) (tr : trace) :
  parse xls1 sheet_name = Ok df1 → parse xls2 sheet_name = Ok df2 → df1 = df2 →
  let run := compare_sheet env file xls1 xls2 file1_name file2_name api_key
               sheet_name tr in
  let text := u"工作表 '" ++ sheet_name ++ u"' 在两个文件中的内容完全相同。" in
  let summary := ToExcel file (prefix_slice 25 sheet_name ++ u"_总结")
                   {| columns := [u"总结"]; rows := [[text]] |} in
  let details := ToExcel file (prefix_slice 25 sheet_name ++ u"_差异")
                   {| columns := [u"状态"; u"说明"]; rows := [[u"相同"; text]] |} in
  equals df1 df2 = true
  ∧ calls run.2 = calls tr
  ∧ (run.2 = tr ∨ run.2 = tr ++ [summary] ∨ run.2 = tr ++ [summary; details])
  ∧ (to_excel env tr file (prefix_slice 25 sheet_name ++ u"_总结")
       {| columns := [u"总结"]; rows := [[text]] |} = None →
     to_excel env (tr ++ [summary]) file (prefix_slice 25 sheet_name ++ u"_差异")
       {| columns := [u"状态"; u"说明"]; rows := [[u"相同"; text]] |} = None →
     run = (Ok tt, tr ++ [summary; details]))
  ∧ (∀ sheets1 sheets2 tr0, ∃ added,
       (write_pair_report env file xls1 xls2 sheets1 sheets2
          file1_name file2_name api_key tr0).2 = tr0 ++ added
       ∧ Forall (λ q, req_sheet q ≠ sheet_name) (calls added))
  ∧ (∀ sheets1 sheets2 tr0 tr1,
       sheet_name ∈ sheets1 → sheet_name ∈ sheets2 →
       write_pair_report env file xls1 xls2 sheets1 sheets2
         file1_name file2_name api_key tr0 = (Ok tt, tr1) →
       ∃ before after,
         tr1 = tr0 ++ [OpenWriter file] ++ before
                   ++ [summary; details] ++ after ++ [CloseWriter file]).
Proof.
  intros H1 H2 Heq run text summary details.
  split; [by apply bool_decide_eq_true_2|].
  assert (Hturn : ∀ tr,
            compare_sheet env file xls1 xls2 file1_name file2_name api_key
              sheet_name tr
            = match to_excel env tr file (prefix_slice 25 sheet_name ++ u"_总结")
                      {| columns := [u"总结"]; rows := [[text]] |} with
              | Some e => (Raise e, tr)
              | None =>
                  match to_excel env (tr ++ [summary]) file
                          (prefix_slice 25 sheet_name ++ u"_差异")
                          {| columns := [u"状态"; u"说明"];
                             rows := [[u"相同"; text]] |} with
                  | Some e => (Raise e, tr ++ [summary])
                  | None => (Ok tt, tr ++ [summary; details])
                  end
              end).
  { intros tr'.
    rewrite (compare_sheet_same env file xls1 xls2 _ _ _ _ df1 df2 H1 H2 tr' Heq).
    unfold mbind, M_bind, write_sheet, guarded, sheet_title, same_summary_df,
      same_details_df, same_text.
    subst summary details text.
    destruct (to_excel env tr' file _ _) as [e|]; [done|].
    destruct (to_excel env (tr' ++ _) file _ _) as [e|]; [done|].
    by rewrite <- app_assoc. }
  match goal with
  | |- ?A ∧ ?B ∧ ?C ∧ ?D ∧ ?E => cut (A ∧ B ∧ C); [intros (? & ? & ?)|]
  end.
  { repeat (split; [done|]). split.
    - intros sheets1 sheets2 tr0.
      destruct (sends_only_write_pair_report env file xls1 xls2 sheets1 sheets2
                  file1_name file2_name api_key tr0) as (added & Htr & Hok).
      exists added. split; [done|]. eapply Forall_impl; [exact Hok|].
      intros q (_ & _ & d1 & d2 & Hd1 & Hd2 & Hne) Hs.
      rewrite Hs in Hd1, Hd2. congruence.
    - intros sheets1 sheets2 tr0 tr1 Hs1 Hs2 Hrun.
      unfold write_pair_report, with_writer in Hrun.
      destruct (ExcelWriter env tr0 file); [discriminate Hrun|].
      unfold mbind at 1, M_bind at 1, write_sheet at 1, guarded at 1 in Hrun.
      destruct (to_excel env (tr0 ++ [OpenWriter file]) file _ _).
      { by destruct (close env _ file). }
      match type of Hrun with
      | context [for_each ?body ?xs ?tr] =>
          destruct (for_each body xs tr) as [[[]|e] tr2] eqn:Hloop
      end.
      2: { by destruct (close env tr2 file). }
      destruct (close env tr2 file); [discriminate Hrun|].
      injection Hrun as <-.
      apply (for_each_turn (λ _, True) _ _ sheet_name _ _
               (λ a, sends_only_mono _ _ _ (λ _ _, I)
                       (sends_only_compare_sheet env file xls1 xls2 file1_name
                          file2_name api_key a))) in Hloop.
      2: { unfold sorted_names. rewrite merge_sort_Permutation.
           by apply elem_of_elements, elem_of_intersection. }
      destruct Hloop as (before & mid & after & Hx & ->).
      rewrite Hturn in Hx.
      repeat match type of Hx with
             | match ?refusal with _ => _ end = _ =>
                 destruct refusal; [discriminate Hx|]
             end.
      injection Hx as Hx. rewrite <- !app_assoc in Hx.
      do 4 apply app_inv_head in Hx. subst mid.
      exists (ToExcel file u"概览" (pair_overview_df sheets1 sheets2) :: before), after.
      rewrite <- !app_assoc. reflexivity. }
  unfold run. rewrite (compare_sheet_same env file xls1 xls2 _ _ _ _ df1 df2 H1 H2 tr Heq).
  unfold mbind, M_bind, write_sheet, guarded, sheet_title, same_summary_df,
    same_details_df, same_text.
  subst summary details text.
  destruct (to_excel env tr file _ _) as [e|]; cbn [snd].
  - split; [done|]. split; [by left|]. done.
  - destruct (to_excel env (tr ++ _) file _ _) as [e|]; cbn [snd].
    + split; [by rewrite calls_app, app_nil_r|]. split; [right; by left|]. done.
    + rewrite <- app_assoc. cbn [app].
      split; [by rewrite calls_app, app_nil_r|]. split; [right; by right|]. done.
Qed.

Lemma identical_sheet_skips_the_model_witness :
  let file := u"out/Comparison_A.xlsx_vs_B.xlsx.xlsx" in
  let text := u"工作表 '备注' 在两个文件中的内容完全相同。" in
  let summary := ToExcel file u"备注_总结" {| columns := [u"总结"]; rows := [[text]] |} in
  let details := ToExcel file u"备注_差异"
                   {| columns := [u"状态"; u"说明"]; rows := [[u"相同"; text]] |} in
  compare_sheet (Sample.world Sample.three_files Sample.overloaded) file
    (Sample.book [(u"预算", Sample.budget_v1); (u"备注", Sample.budget_v1)])
    (Sample.book [(u"预算", Sample.budget_v2); (u"备注", Sample.budget_v1)])
    u"A.xlsx" u"B.xlsx" u"sk-0" u"备注" []
  = (Ok tt, [summary; details])
  ∧ ∃ before after,
      (write_pair_report (Sample.world Sample.three_files Sample.overloaded) file
         (Sample.book [(u"预算", Sample.budget_v1); (u"备注", Sample.budget_v1)])
         (Sample.book [(u"预算", Sample.budget_v2); (u"备注", Sample.budget_v1)])
         (set_of [u"预算"; u"备注"]) (set_of [u"预算"; u"备注"])
         u"A.xlsx" u"B.xlsx" u"sk-0" []).2
      = [] ++ [OpenWriter file] ++ before ++ [summary; details] ++ after
           ++ [CloseWriter file].
Proof.
  intros file text summary details.
  destruct (identical_sheet_skips_the_model
              (Sample.world Sample.three_files Sample.overloaded) file
              (Sample.book [(u"预算", Sample.budget_v1); (u"备注", Sample.budget_v1)])
              (Sample.book [(u"预算", Sample.budget_v2); (u"备注", Sample.budget_v1)])
              u"A.xlsx" u"B.xlsx" u"sk-0" u"备注"
              Sample.budget_v1 Sample.budget_v1 [])
    as (_ & _ & _ & H & _ & Hpair).
  - vm_compute. reflexivity.
  - vm_compute. reflexivity.
  - reflexivity.
  - split.
    + rewrite H; [vm_compute; reflexivity|reflexivity|reflexivity].
    + set (run := write_pair_report _ _ _ _ _ _ _ _ _ _).
      assert (Hok : run.1 = Ok tt) by (vm_compute; reflexivity).
      destruct (Hpair (set_of [u"预算"; u"备注"]) (set_of [u"预算"; u"备注"]) [] run.2)
        as (before & after & Htr).
      * apply elem_of_list_to_set, list_elem_of_further, list_elem_of_here.
      * apply elem_of_list_to_set, list_elem_of_further, list_elem_of_here.
      * rewrite <- Hok. apply surjective_pairing.
      * exists before, after. rewrite Htr. vm_compute. reflexivity.
Defined.

(** ** The pairs of files *)

Lemma elem_of_combinations2 {A} (xs : list A) (a b : A) :
  (a, b) ∈ combinations2 xs
  ↔ ∃ i j, i < j ∧ xs !! i = Some a ∧ xs !! j = Some b.
Proof.
  induction xs as [|x xs IH]; cbn [combinations2].
  - split; [by intros ?%elem_of_nil|]. by intros (i & j & _ & ? & _).
  - rewrite elem_of_app, list_elem_of_fmap, IH. split.
    + intros [(y & [= -> ->] & Hy)|(i & j & Hij & Hi & Hj)].
      * apply list_elem_of_lookup in Hy as [j Hj]. exists 0, (S j).
        split; [lia|]. done.
      * exists (S i), (S j). split; [lia|]. done.
    + intros (i & j & Hij & Hi & Hj). destruct j as [|j]; [lia|].
      destruct i as [|i].
      * left. injection Hi as ->. exists b. split; [done|].
        apply list_elem_of_lookup. by exists j.
      * right. exists i, j. split; [lia|]. done.
Qed.

Lemma combinations2_fmap {A B} (f : A → B) (xs : list A) :
  combinations2 (f <$> xs) = prod_map f f <$> combinations2 xs.
Proof.
  induction xs as [|x xs IH]; cbn [combinations2 fmap list_fmap]; [done|].
  rewrite fmap_app, IH. f_equal.
  rewrite <- !list_fmap_compose. by apply list_fmap_ext.
Qed.

Lemma length_combinations2 {A} (xs : list A) :
  2 * length (combinations2 xs) = length xs * (length xs - 1).
Proof.
  induction xs as [|x xs IH]; cbn [combinations2 length]; [done|].
  rewrite length_app, length_fmap. nia.
Qed.

Lemma combinations2_NoDup {A} (xs : list A) :
  NoDup xs → NoDup (combinations2 xs).
Proof.
  induction 1 as [|x xs Hx Hxs IH]; cbn [combinations2]; [constructor|].
  apply NoDup_app. split; [|split; [|done]].
  - apply NoDup_fmap_2; [|done]. by intros ?? [= ->].
  - intros [a b] (y & [= -> ->] & Hy)%list_elem_of_fmap
      (i & j & _ & Hi & _)%elem_of_combinations2.
    apply Hx, list_elem_of_lookup. by exists i.
Qed.

Lemma combinations2_distinct {A} (xs : list A) (a b : A) :
  NoDup xs → (a, b) ∈ combinations2 xs →
  a ≠ b ∧ (b, a) ∉ combinations2 xs.
Proof.
  intros Hnd (i & j & Hij & Hi & Hj)%elem_of_combinations2. split.
  - intros ->. pose proof (NoDup_lookup _ _ _ _ Hnd Hi Hj). lia.
  - intros (i' & j' & Hij' & Hi' & Hj')%elem_of_combinations2.
    pose proof (NoDup_lookup _ _ _ _ Hnd Hi Hj').
    pose proof (NoDup_lookup _ _ _ _ Hnd Hj Hi'). lia.
Qed.

(** What one turn of the loop appends to [overview_data], case by case. *)
Lemma compare_pair_eq (env : Env) (output_dir api_key file1_path file2_path : str)
    (tr : trace) :
  let file1_name := basename file1_path in
  let file2_name := basename file2_path in
  let file := pair_report_name output_dir file1_name file2_name in
  compare_pair env output_dir api_key (file1_path, file2_path) tr
  = match open_pair env file1_path file2_path tr with
    | (Raise e, tr1) => (Ok (entry file1_name file2_name ReadError e), tr1)
    | (Ok (xls1, xls2, sheets1, sheets2), tr1) =>
        match sorted_names (sheets1 ∩ sheets2) with
        | [] => (Ok (entry file1_name file2_name NoCommonSheets
                       u"两个文件没有共同的工作表可供比较。"), tr1)
        | _ =>
            match write_pair_report env file xls1 xls2 sheets1 sheets2
                    file1_name file2_name api_key tr1 with
            | (Ok _, tr2) =>
                (Ok (entry file1_name file2_name Completed
                       (u"比较结果已保存至: " ++ basename file)), tr2)
            | (Raise e, tr2) =>
                (Ok (entry file1_name file2_name ProcessingError e), tr2)
            end
        end
    end.
Proof.
  intros file1_name file2_name file. unfold compare_pair.
  unfold mbind at 1, M_bind at 1, attempt.
  destruct (open_pair env file1_path file2_path tr)
    as [[[[[xls1 xls2] sheets1] sheets2]|e] tr1]; [|done].
  destruct (sorted_names (sheets1 ∩ sheets2)) as [|name common] eqn:Hc; [done|].
  unfold catch, mbind, M_bind. fold file1_name file2_name file.
  by destruct (write_pair_report _ _ _ _ _ _ _ _ _ tr1) as [[[]|e] tr2].
Qed.

Lemma compare_pair_never_raises (env : Env) (output_dir api_key : str)
    (file_pair : str * str) (tr : trace) :
  ∃ e tr', compare_pair env output_dir api_key file_pair tr = (Ok e, tr')
           ∧ names e = basenames file_pair.
Proof.
  destruct file_pair as [file1_path file2_path]. rewrite compare_pair_eq.
  destruct (open_pair env file1_path file2_path tr)
    as [[[[[xls1 xls2] sheets1] sheets2]|e] tr1]; [|by eexists _, _].
  destruct (sorted_names (sheets1 ∩ sheets2)); [by eexists _, _|].
  destruct (write_pair_report _ _ _ _ _ _ _ _ _ tr1) as [[[]|e] tr2];
    by eexists _, _.
Qed.

Lemma compare_pairs_never_raises (env : Env) (output_dir api_key : str)
    (file_pairs : list (str * str)) (overview_data : list OverviewEntry) (tr : trace) :
  ∃ entries tr',
    compare_pairs env output_dir api_key file_pairs overview_data tr
    = (Ok (overview_data ++ entries), tr')
    ∧ names <$> entries = basenames <$> file_pairs
    ∧ Forall2 (λ file_pair e, ∃ t t',
                 compare_pair env output_dir api_key file_pair t = (Ok e, t'))
              file_pairs entries.
Proof.
  revert overview_data tr.
  induction file_pairs as [|file_pair file_pairs IH]; intros overview_data tr.
  - exists [], tr. by rewrite app_nil_r.
  - cbn [compare_pairs]. unfold mbind, M_bind.
    destruct (compare_pair_never_raises env output_dir api_key file_pair tr)
      as (e & tr1 & He & Hn).
    rewrite He. destruct (IH (overview_data ++ [e]) tr1) as (es & tr2 & Hes & Hns & Hall).
    exists (e :: es), tr2. rewrite Hes, <- app_assoc. split; [done|].
    split; [by rewrite !fmap_cons, Hn, Hns|].
    constructor; [by exists tr, tr1|done].
Qed.

(** C7. Whatever the outside does, the loop over the pairs never raises
    and appends one entry for each pair, in order, each being what the
    comparison of its pair gives. The entry of a pair tells what happened:
    [读取错误] with the message when a workbook cannot be read,
    [无共同工作表] when no sheet is common, [处理错误] with the message when
    anything raised while the pair report was written, [已完成] otherwise.
    Within a pair, a sheet for which the client gave nothing gets its sheet
    [_错误], and a reply that is not a table gets its text in the sheet
    [_差异对比], and the comparison of the sheet ends normally. *)
Theorem local_errors_are_recorded_and_the_run_goes_on
    (env : Env) (output_dir api_key : str) :
  (∀ file_pairs overview_data tr, ∃ entries tr',
     compare_pairs env output_dir api_key file_pairs overview_data tr
     = (Ok (overview_data ++ entries), tr')
     ∧ names <$> entries = basenames <$> file_pairs
     ∧ Forall2 (λ file_pair e, ∃ t t',
                  compare_pair env output_dir api_key file_pair t = (Ok e, t'))
               file_pairs entries)
  ∧ (∀ file1_path file2_path tr,
       let file1_name := basename file1_path in
       let file2_name := basename file2_path in
       let file := pair_report_name output_dir file1_name file2_name in
       compare_pair env output_dir api_key (file1_path, file2_path) tr
       = match open_pair env file1_path file2_path tr with
         | (Raise e, tr1) =>
             (Ok {| entry_file1 := file1_name; entry_file2 := file2_name;
                 entry_status := ReadError; entry_note := e |}, tr1)
         | (Ok (xls1, xls2, sheets1, sheets2), tr1) =>
             match sorted_names (sheets1 ∩ sheets2) with
             | [] =>
                 (Ok {| entry_file1 := file1_name; entry_file2 := file2_name;
                     entry_status := NoCommonSheets;
                     entry_note := u"两个文件没有共同的工作表可供比较。" |}, tr1)
             | _ =>
                 match write_pair_report env file xls1 xls2 sheets1 sheets2
                         file1_name file2_name api_key tr1 with
                 | (Ok _, tr2) =>
                     (Ok {| entry_file1 := file1_name; entry_file2 := file2_name;
                         entry_status := Completed;
                         entry_note := u"比较结果已保存至: " ++ basename file |}, tr2)
                 | (Raise e, tr2) =>
                     (Ok {| entry_file1 := file1_name; entry_file2 := file2_name;
                         entry_status := ProcessingError; entry_note := e |}, tr2)
                 end
             end
         end)
  ∧ (∀ file xls1 xls2 file1_name file2_name sheet_name df1 df2 tr tr1 r,
       parse xls1 sheet_name = Ok df1 → parse xls2 sheet_name = Ok df2 →
       df1 ≠ df2 →
       get_comparison_from_kimi env (to_json env df1) (to_json env df2)
         file1_name file2_name sheet_name api_key default_retries default_delay tr
       = (Ok r, tr1) →
       truthy r = false →
       let title := prefix_slice 25 sheet_name ++ u"_错误" in
       let error_df :=
         {| columns := [u"错误"];
            rows := [[u"未能从Kimi获取 '" ++ sheet_name ++ u"' 的工作流比较结果。"]] |} in
       to_excel env tr1 file title error_df = None →
       compare_sheet env file xls1 xls2 file1_name file2_name api_key sheet_name tr
       = (Ok tt, tr1 ++ [ToExcel file title error_df]))
  ∧ (∀ file xls1 xls2 file1_name file2_name sheet_name df1 df2 tr tr1 reply,
       parse xls1 sheet_name = Ok df1 → parse xls2 sheet_name = Ok df2 →
       df1 ≠ df2 →
       get_comparison_from_kimi env (to_json env df1) (to_json env df2)
         file1_name file2_name sheet_name api_key default_retries default_delay tr
       = (Ok (Some reply), tr1) →
       reply ≠ [] →
       contains [pipe] (default [] (reply_lines reply !! 0)) = false →
       let title := prefix_slice 25 sheet_name ++ u"_差异对比" in
       let details_df := unparsed_df sheet_name (strip reply) in
       to_excel env tr1 file title details_df = None →
       set_column_widths env (tr1 ++ [ToExcel file title details_df]) file title
         details_df = None →
       compare_sheet env file xls1 xls2 file1_name file2_name api_key sheet_name tr
       = (Ok tt, tr1 ++ [ToExcel file title details_df])).
Proof.
  split; [|split; [|split]].
  - intros. apply compare_pairs_never_raises.
  - intros. apply compare_pair_eq.
  - intros file xls1 xls2 n1 n2 sheet df1 df2 tr tr1 r H1 H2 Hne Hask Hr title df Hw.
    by apply (compare_sheet_no_reply env file xls1 xls2 n1 n2 api_key sheet df1 df2
                H1 H2 tr tr1 r).
  - intros file xls1 xls2 n1 n2 sheet df1 df2 tr tr1 reply H1 H2 Hne Hask Hr Hp
      title df Hw Hc.
    pose proof (reply_without_pipe_kept_as_text sheet reply Hp) as Hparse.
    pose proof (compare_sheet_reply env file xls1 xls2 n1 n2 api_key sheet df1 df2
                  H1 H2 tr tr1 reply Hne Hask Hr) as H.
    cbv zeta in H. rewrite Hparse in H. by apply H.
Qed.

Lemma local_errors_are_recorded_and_the_run_goes_on_witness :
  let env := Sample.world Sample.four_files Sample.overloaded in
  let req := Build_Request u"[]" u"[]" u"A.xlsx" u"B.xlsx" u"预算" u"sk-0" in
  let file := u"out/Comparison_A.xlsx_vs_B.xlsx.xlsx" in
  (∃ entries tr',
     compare_pairs env u"out" u"sk-0" (combinations2 (excel_files env u"in")) [] []
     = (Ok entries, tr')
     ∧ length entries = 6)
  ∧ compare_sheet env file
      (Sample.book [(u"预算", Sample.budget_v1); (u"备注", Sample.budget_v1)])
      (Sample.book [(u"预算", Sample.budget_v2); (u"备注", Sample.budget_v1)])
      u"A.xlsx" u"B.xlsx" u"sk-0" u"预算" []
    = (Ok tt,
       [Call req; Sleep 5; Call req; Sleep 5; Call req;
        ToExcel file u"预算_错误"
          {| columns := [u"错误"];
             rows := [[u"未能从Kimi获取 '预算' 的工作流比较结果。"]] |}]).
Proof.
  intros env req file.
  destruct (local_errors_are_recorded_and_the_run_goes_on env u"out" u"sk-0")
    as (Hloop & _ & Hsheet & _).
  split.
  - destruct (Hloop (combinations2 (excel_files env u"in")) [] [])
      as (entries & tr' & Hrun & Hnames & _).
    exists entries, tr'. split; [exact Hrun|].
    apply (f_equal length) in Hnames. rewrite !length_fmap in Hnames.
    rewrite Hnames. vm_compute. reflexivity.
  - rewrite (Hsheet file _ _ u"A.xlsx" u"B.xlsx" u"预算"
               Sample.budget_v1 Sample.budget_v2 []
               [Call req; Sleep 5; Call req; Sleep 5; Call req] None).
    + vm_compute. reflexivity.
    + vm_compute. reflexivity.
    + vm_compute. reflexivity.
    + intros H. apply (f_equal rows) in H. vm_compute in H. discriminate H.
    + vm_compute. reflexivity.
    + reflexivity.
    + reflexivity.
Defined.

(** The statuses of a run over four files, one of which cannot be read,
    while the writer refuses one sheet of the first pair. *)
Example statuses_of_a_run :
  let env := Sample.world_refusing [u"备注_总结"] Sample.four_files Sample.overloaded in
  (λ r, (λ e, (names e, entry_status e)) <$> default [] r)
    (match compare_pairs env u"out" u"sk-0"
             (combinations2 (excel_files env u"in")) [] [] with
     | (Ok entries, _) => Some entries
     | _ => None
     end)
  = [((u"A.xlsx", u"B.xlsx"), ProcessingError);
     ((u"A.xlsx", u"C.xlsx"), NoCommonSheets);
     ((u"A.xlsx", u"D.xlsx"), ReadError);
     ((u"B.xlsx", u"C.xlsx"), NoCommonSheets);
     ((u"B.xlsx", u"D.xlsx"), ReadError);
     ((u"C.xlsx", u"D.xlsx"), ReadError)].
Proof. vm_compute. reflexivity. Qed.

(** ** The orchestrator *)

(** C1. When the directory holds at least two eligible files, with file
    names all different, the overview holds one entry for each pair of
    positions [i < j] of the list of files, in the order of
    [itertools.combinations]: [N * (N - 1) / 2] entries, no pair twice, in
    either order, and no file with itself. The order depends on nothing but
    the list of files: three files [A], [B], [C] give [(A, B)], [(A, C)],
    [(B, C)]. These entries are what the sheet [总览] of the overall report
    holds whenever [perform_comparison] gives a path, which it does when the
    writer of the overall report accepts its operations. *)
Theorem overview_lists_every_pair_once
    (env : Env) (input_dir output_dir api_key : str) (tr : trace) :
  let files := excel_files env input_dir in
  let file_names := basename <$> files in
  let overall := overall_output_filename env output_dir in
  2 ≤ length files → NoDup file_names →
  ∃ overview_data tr1,
    let pairs := names <$> overview_data in
    let overview := ToExcel overall u"总览" (overview_df overview_data) in
    compare_pairs env output_dir api_key (combinations2 files) []
      (tr ++ [OpenWriter overall])
    = (Ok overview_data, tr1)
    ∧ length overview_data = length files * (length files - 1) / 2
    ∧ pairs = combinations2 file_names
    ∧ NoDup pairs
    ∧ (∀ a b, (a, b) ∈ pairs → a ≠ b ∧ (b, a) ∉ pairs)
    ∧ (∀ a b, (a, b) ∈ pairs
              ↔ ∃ i j, i < j ∧ file_names !! i = Some a ∧ file_names !! j = Some b)
    ∧ (∀ A B C, file_names = [A; B; C] → pairs = [(A, B); (A, C); (B, C)])
    ∧ (∀ path tr',
         perform_comparison env input_dir output_dir api_key tr = (Some path, tr') →
         path = overall ∧ tr' = tr1 ++ [overview; CloseWriter overall])
    ∧ (ExcelWriter env tr overall = None →
       to_excel env tr1 overall u"总览" (overview_df overview_data) = None →
       close env (tr1 ++ [overview]) overall = None →
       perform_comparison env input_dir output_dir api_key tr
       = (Some overall, tr1 ++ [overview; CloseWriter overall])).
Proof.
  intros files file_names overall Hn Hnd.
  destruct (compare_pairs_never_raises env output_dir api_key (combinations2 files)
              [] (tr ++ [OpenWriter overall])) as (od & tr1 & Hrun & Hnames & _).
  cbn [app] in Hrun. exists od, tr1. cbv zeta.
  assert (Hpairs : names <$> od = combinations2 file_names).
  { rewrite Hnames. unfold file_names. rewrite combinations2_fmap.
    apply list_fmap_ext. by intros _ [a b] _. }
  split; [done|]. split.
  { apply Nat.div_unique_exact; [done|].
    rewrite <- length_combinations2.
    apply (f_equal length) in Hnames. rewrite !length_fmap in Hnames. lia. }
  split; [done|]. rewrite Hpairs.
  split; [by apply combinations2_NoDup|].
  split; [intros a b; by apply combinations2_distinct|].
  split; [intros a b; apply elem_of_combinations2|].
  split; [by intros A B C ->|].
  assert (Hperform : perform_comparison env input_dir output_dir api_key tr
    = match ExcelWriter env tr overall with
      | Some _ => (None, tr)
      | None =>
          match to_excel env tr1 overall u"总览" (overview_df od) with
          | Some _ =>
              match close env tr1 overall with
              | Some _ => (None, tr1)
              | None => (None, tr1 ++ [CloseWriter overall])
              end
          | None =>
              let tr2 := tr1 ++ [ToExcel overall u"总览" (overview_df od)] in
              match close env tr2 overall with
              | Some _ => (None, tr2)
              | None => (Some overall, tr2 ++ [CloseWriter overall])
              end
          end
      end).
  { unfold perform_comparison. fold files.
    rewrite bool_decide_eq_false_2 by lia.
    unfold write_overall, with_writer. fold overall.
    destruct (ExcelWriter env tr overall); [done|].
    unfold mbind, M_bind. rewrite Hrun. unfold write_sheet, guarded.
    destruct (to_excel env tr1 overall _ _).
    - by destruct (close env tr1 overall).
    - cbv zeta. by destruct (close env _ overall). }
  rewrite Hperform. split.
  - intros path tr'.
    destruct (ExcelWriter env tr overall); [done|].
    destruct (to_excel env tr1 overall _ _).
    + by destruct (close env tr1 overall).
    + cbv zeta. destruct (close env _ overall); [done|].
      intros [= <- <-]. by rewrite <- app_assoc.
  - intros -> -> Hc. cbv zeta. rewrite Hc. by rewrite <- app_assoc.
Qed.

Lemma overview_lists_every_pair_once_witness :
  let env := Sample.world Sample.three_files Sample.overloaded in
  ∃ overview_data tr1,
    names <$> overview_data
    = [(u"A.xlsx", u"B.xlsx"); (u"A.xlsx", u"C.xlsx"); (u"B.xlsx", u"C.xlsx")]
    ∧ perform_comparison env u"in" u"out" u"sk-0" []
      = (Some u"out/Overall_Comparison_20240101_093000.xlsx",
         tr1 ++ [ToExcel u"out/Overall_Comparison_20240101_093000.xlsx" u"总览"
                   (overview_df overview_data);
                 CloseWriter u"out/Overall_Comparison_20240101_093000.xlsx"]).
Proof.
  intros env.
  destruct (overview_lists_every_pair_once env u"in" u"out" u"sk-0" [])
    as (overview_data & tr1 & _ & _ & _ & _ & _ & _ & Hthree & _ & Hpath).
  - vm_compute. lia.
  - apply (bool_decide_unpack _). vm_compute. exact I.
  - exists overview_data, tr1. split.
    + apply Hthree. vm_compute. reflexivity.
    + rewrite Hpath; [|reflexivity|reflexivity|reflexivity].
      f_equal; vm_compute; reflexivity.
Defined.

(** C8. With fewer than two eligible files [perform_comparison] gives
    [None] at once: no request is sent, no writer is opened and no sheet is
    written, so that a run from the entry point leaves an empty trace and
    no report. *)
Theorem fewer_than_two_files_fail_fast
    (env : Env) (input_dir output_dir api_key : str) (tr : trace) :
  length (excel_files env input_dir) < 2 →
  perform_comparison env input_dir output_dir api_key tr = (None, tr)
  ∧ (main env input_dir output_dir api_key).2 = []
  ∧ (∀ path, (main env input_dir output_dir api_key).1 ≠ Ran (Some path)).
Proof.
  intros Hn.
  assert (Hp : ∀ t, perform_comparison env input_dir output_dir api_key t = (None, t)).
  { intros t. unfold perform_comparison. by rewrite bool_decide_eq_true_2. }
  split; [apply Hp|]. unfold main. rewrite Hp.
  destruct (falsy input_dir || negb (isdir env input_dir)); [done|].
  destruct (falsy output_dir || negb (isdir env output_dir)); [done|].
  by destruct (falsy api_key || negb (contains u"sk-" api_key)).
Qed.

Lemma fewer_than_two_files_fail_fast_witness :
  let env := Sample.world Sample.one_file Sample.overloaded in
  excel_files env u"in" = [u"in/A.xlsx"]
  ∧ main env u"in" u"out" u"sk-0" = (Ran None, []).
Proof.
  intros env. split; [vm_compute; reflexivity|].
  destruct (fewer_than_two_files_fail_fast env u"in" u"out" u"sk-0" [])
    as (Hp & _ & _).
  - vm_compute. lia.
  - unfold main. rewrite Hp. vm_compute. reflexivity.
Defined.

(** C9, as amended. The comparison starts only when both directories are
    given and exist and the key is not empty and holds the text [sk-]
    somewhere, not only at its start; in every other case nothing is done
    and an error is reported, [InvalidApiKey] when the directories are right
    and the key is empty or lacks [sk-]. *)
Theorem comparison_requires_key_containing_sk
    (env : Env) (input_dir output_dir api_key : str) :
  let directories_valid :=
    input_dir ≠ [] ∧ isdir env input_dir = true
    ∧ output_dir ≠ [] ∧ isdir env output_dir = true in
  let key_valid := api_key ≠ [] ∧ contains u"sk-" api_key = true in
  (directories_valid → key_valid →
     main env input_dir output_dir api_key
     = (Ran (perform_comparison env input_dir output_dir api_key []).1,
        (perform_comparison env input_dir output_dir api_key []).2))
  ∧ (directories_valid → ¬ key_valid →
       main env input_dir output_dir api_key = (InvalidApiKey, []))
  ∧ (∀ r, (main env input_dir output_dir api_key).1 = Ran r →
       directories_valid ∧ key_valid)
  ∧ ((∀ r, (main env input_dir output_dir api_key).1 ≠ Ran r) →
       (main env input_dir output_dir api_key).2 = []).
Proof.
  intros directories_valid key_valid. unfold main.
  assert (Hf : ∀ s : str, falsy s = false ↔ s ≠ []) by (by intros []).
  destruct (falsy input_dir) eqn:Hi; cbn [orb].
  { assert (¬ directories_valid) by (intros (? & _); by destruct input_dir).
    repeat split; try done. all: by intros. }
  destruct (isdir env input_dir) eqn:Hid; cbn [orb negb].
  2: { assert (¬ directories_valid) by (by intros (_ & ? & _)).
       repeat split; try done. all: by intros. }
  destruct (falsy output_dir) eqn:Ho; cbn [orb].
  { assert (¬ directories_valid) by (intros (_ & _ & ? & _); by destruct output_dir).
    repeat split; try done. all: by intros. }
  destruct (isdir env output_dir) eqn:Hod; cbn [orb negb].
  2: { assert (¬ directories_valid) by (by intros (_ & _ & _ & ?)).
       repeat split; try done. all: by intros. }
  assert (Hd : directories_valid) by (by repeat split; apply Hf).
  destruct (falsy api_key) eqn:Hk; cbn [orb].
  { assert (¬ key_valid) by (intros (? & _); by destruct api_key).
    repeat split; try done. all: by intros. }
  destruct (contains u"sk-" api_key) eqn:Hc; cbn [orb negb].
  2: { assert (¬ key_valid) by (by intros (_ & ?)).
       repeat split; try done. all: by intros. }
  assert (Hv : key_valid) by (by split; [apply Hf|]).
  destruct (perform_comparison env input_dir output_dir api_key []) as [r tr] eqn:Hp.
  cbn [fst snd]. split; [done|]. split; [by intros _ ?|]. split; [by intros|].
  intros H. by destruct (H r).
Qed.

Lemma comparison_requires_key_containing_sk_witness :
  let env := Sample.world Sample.one_file Sample.overloaded in
  main env u"in" u"out" u"my-sk-key" = (Ran None, [])
  ∧ main env u"in" u"out" u"SK-KEY" = (InvalidApiKey, []).
Proof.
  intros env.
  destruct (comparison_requires_key_containing_sk env u"in" u"out" u"my-sk-key")
    as (Hrun & _).
  destruct (comparison_requires_key_containing_sk env u"in" u"out" u"SK-KEY")
    as (_ & Hno & _).
  split.
  - rewrite Hrun.
    + vm_compute. reflexivity.
    + repeat split; vm_compute; (reflexivity || discriminate).
    + split; vm_compute; (reflexivity || discriminate).
  - apply Hno.
    + repeat split; vm_compute; (reflexivity || discriminate).
    + intros (_ & H). vm_compute in H. discriminate H.
Defined.

(** C9, as stated, fails on a key that holds [sk-] without starting with
    it: the comparison runs. *)
Lemma key_with_sk_inside_is_accepted :
  ¬ (∀ r, (main (Sample.world Sample.three_files Sample.overloaded)
             u"in" u"out" u"task-0").1 = Ran r →
          u"task-0" ≠ [] ∧ startswith u"task-0" u"sk-" = true).
Proof.
  intros H.
  destruct (H (Some u"out/Overall_Comparison_20240101_093000.xlsx")) as [_ Hs].
  - vm_compute. reflexivity.
  - vm_compute in Hs. discriminate Hs.
Qed.

(** * Further properties of the code *)

(** ** Text *)

Section Strip.
Context (p : N → bool).

Lemma lstrip_by_spec (s : str) :
  ∃ pre, s = pre ++ lstrip_by p s ∧ Forall (λ c, p c = true) pre.
Proof.
  induction s as [|c s (pre & Hs & Hpre)]; [by exists []|]. cbn [lstrip_by].
  destruct (p c) eqn:Hc; [|by exists []].
  exists (c :: pre). split; [by rewrite Hs at 1|by constructor].
Qed.

Lemma lstrip_by_head (s : str) :
  match lstrip_by p s with
  | [] => True
  | c :: _ => p c = false
  end.
Proof.
  induction s as [|c s IH]; [done|]. cbn [lstrip_by].
  by destruct (p c) eqn:Hc.
Qed.

Lemma lstrip_by_app_l (pre s : str) :
  Forall (λ c, p c = true) pre → lstrip_by p (pre ++ s) = lstrip_by p s.
Proof.
  induction 1 as [|c pre Hc _ IH]; [done|]. cbn [app lstrip_by]. by rewrite Hc.
Qed.

Lemma lstrip_by_all (s : str) :
  Forall (λ c, p c = true) s → lstrip_by p s = [].
Proof.
  intros Hs. rewrite <- (app_nil_r s). by rewrite lstrip_by_app_l.
Qed.

Lemma lstrip_by_cons_keep (c : N) (s : str) :
  p c = false → lstrip_by p (c :: s) = c :: s.
Proof. intros Hc. cbn [lstrip_by]. by rewrite Hc. Qed.

Lemma rstrip_by_app_r (s post : str) :
  Forall (λ c, p c = true) post → rstrip_by p (s ++ post) = rstrip_by p s.
Proof.
  intros Hpost. unfold rstrip_by. rewrite rev_app_distr, lstrip_by_app_l; [done|].
  by apply Forall_rev.
Qed.

Lemma rstrip_by_snoc_keep (s : str) (c : N) :
  p c = false → rstrip_by p (s ++ [c]) = s ++ [c].
Proof.
  intros Hc. unfold rstrip_by. rewrite rev_app_distr. cbn [rev app].
  rewrite lstrip_by_cons_keep by done. cbn [rev]. by rewrite rev_involutive.
Qed.

Lemma rstrip_by_all (s : str) :
  Forall (λ c, p c = true) s → rstrip_by p s = [].
Proof.
  intros Hs. unfold rstrip_by. rewrite lstrip_by_all; [done|]. by apply Forall_rev.
Qed.

(** Stripping on the right keeps a first character that is not stripped. *)
Lemma rstrip_by_cons_keep (c : N) (s : str) :
  p c = false → ∃ s', rstrip_by p (c :: s) = c :: s'.
Proof.
  intros Hc. induction s as [|d s IH] using rev_ind.
  - exists []. by apply (rstrip_by_snoc_keep []).
  - destruct (p d) eqn:Hd.
    + rewrite app_comm_cons, rstrip_by_app_r; [done|]. by constructor.
    + exists (s ++ [d]). by rewrite app_comm_cons, rstrip_by_snoc_keep.
Qed.

Lemma rstrip_by_idemp (s : str) : rstrip_by p (rstrip_by p s) = rstrip_by p s.
Proof.
  induction s as [|d s IH] using rev_ind; [done|].
  destruct (p d) eqn:Hd.
  - rewrite rstrip_by_app_r; [done|]. by constructor.
  - by rewrite !rstrip_by_snoc_keep.
Qed.

Lemma strip_by_idemp (s : str) :
  rstrip_by p (lstrip_by p (rstrip_by p (lstrip_by p s)))
  = rstrip_by p (lstrip_by p s).
Proof.
  pose proof (lstrip_by_head s) as Hh.
  destruct (lstrip_by p s) as [|c t] eqn:Hl; [done|].
  destruct (rstrip_by_cons_keep c t Hh) as [t' Ht].
  rewrite Ht, lstrip_by_cons_keep by done. rewrite <- Ht. apply rstrip_by_idemp.
Qed.

(** What surrounds a text and is stripped does not count. *)
Lemma strip_by_pad (pre s post : str) :
  Forall (λ c, p c = true) pre → Forall (λ c, p c = true) post →
  rstrip_by p (lstrip_by p (pre ++ s ++ post)) = rstrip_by p (lstrip_by p s).
Proof.
  intros Hpre Hpost. rewrite lstrip_by_app_l by done.
  destruct (lstrip_by_spec s) as (ws & Hs & Hws).
  pose proof (lstrip_by_head s) as Hh.
  destruct (lstrip_by p s) as [|c t] eqn:Hl.
  - rewrite app_nil_r in Hs. subst ws.
    rewrite lstrip_by_all by (by apply Forall_app). done.
  - rewrite Hs at 1. rewrite <- app_assoc, lstrip_by_app_l by done.
    cbn [app]. rewrite lstrip_by_cons_keep by done.
    by rewrite app_comm_cons, rstrip_by_app_r.
Qed.
End Strip.

Lemma strip_idemp (s : str) : strip (strip s) = strip s.
Proof. apply strip_by_idemp. Qed.

Lemma strip_pad (pre s post : str) :
  Forall (λ c, isspace c = true) pre → Forall (λ c, isspace c = true) post →
  strip (pre ++ s ++ post) = strip s.
Proof. apply strip_by_pad. Qed.

Lemma split_no_sep (sep : N) (s : str) : sep ∉ s → split sep s = [s].
Proof.
  induction s as [|c s IH]; [done|]. intros Hs. cbn [split].
  rewrite (proj2 (N.eqb_neq c sep)) by (intros ->; apply Hs; by left).
  rewrite IH; [done|]. intros ?. apply Hs. by right.
Qed.

Lemma split_app_sep (sep : N) (a b : str) :
  sep ∉ a → split sep (a ++ sep :: b) = a :: split sep b.
Proof.
  induction a as [|c a IH]; intros Ha; cbn [app split].
  - by rewrite N.eqb_refl.
  - rewrite (proj2 (N.eqb_neq c sep)) by (intros ->; apply Ha; by left).
    rewrite IH; [done|]. intros ?. apply Ha. by right.
Qed.

Lemma split_join (sep : N) (parts : list str) :
  parts ≠ [] → Forall (λ part, sep ∉ part) parts →
  split sep (join [sep] parts) = parts.
Proof.
  intros Hne Hparts. induction Hparts as [|part parts Hp Hps IH]; [done|].
  destruct parts as [|part' parts]; cbn [join].
  - by apply split_no_sep.
  - cbn [app]. rewrite split_app_sep by done. f_equal. by apply IH.
Qed.

Lemma split_not_nil (sep : N) (s : str) : split sep s ≠ [].
Proof.
  induction s as [|c s IH]; [done|]. cbn [split].
  destruct (c =? sep)%N; [done|]. by destruct (split sep s).
Qed.

Lemma strip_keep (s : str) (a b : N) (t : str) :
  s = a :: t → isspace a = false →
  (∃ t', s = t' ++ [b]) → isspace b = false → strip s = s.
Proof.
  intros -> Ha [t' Ht] Hb. unfold strip.
  rewrite lstrip_by_cons_keep by done. rewrite Ht.
  by apply rstrip_by_snoc_keep.
Qed.

Lemma space_is_space : isspace 32 = true.
Proof. reflexivity. Qed.

Lemma pipe_not_space : isspace pipe = false.
Proof. reflexivity. Qed.

(** A plain cell between two spaces strips to itself. *)
Lemma strip_padded_cell (c : str) : strip c = c → strip (u" " ++ c ++ u" ") = c.
Proof.
  intros Hc. rewrite strip_pad; [done| |]; by repeat constructor.
Qed.

Lemma render_row_inner (row : list str) :
  row ≠ [] →
  u" " ++ join u" | " row ++ u" " = join [pipe] (pad <$> row).
Proof.
  intros Hne. induction row as [|c row IH]; [done|].
  destruct row as [|c' row].
  - done.
  - cbn [join fmap list_fmap]. cbn [join fmap list_fmap] in IH.
    rewrite <- IH by done. unfold pad.
    change (u" | ") with (u" " ++ [pipe] ++ u" ").
    change (u" ") with [32%N]. by rewrite <- !app_assoc.
Qed.

Lemma elem_of_join (sep : str) (parts : list str) (x : N) :
  x ∈ join sep parts → x ∈ sep ∨ ∃ part, part ∈ parts ∧ x ∈ part.
Proof.
  induction parts as [|p parts IH]; [by intros ?%elem_of_nil|].
  destruct parts as [|p' parts]; cbn [join].
  - intros Hx. right. exists p. split; [by left|done].
  - rewrite !elem_of_app. intros [Hx|[Hx|Hx]].
    + right. exists p. split; [by left|done].
    + by left.
    + destruct (IH Hx) as [?|(part & Hin & ?)]; [by left|].
      right. exists part. split; [by right|done].
Qed.

Lemma cells_render_row (row : list str) :
  row ≠ [] → Forall plain_cell row → cells (render_row row) = row.
Proof.
  intros Hne Hrow. unfold cells, render_row.
  assert (Hstrip : strip (u"| " ++ join u" | " row ++ u" |")
                   = u"| " ++ join u" | " row ++ u" |").
  { eapply (strip_keep _ pipe pipe); [reflexivity|done| |done].
    exists (u"| " ++ join u" | " row ++ u" ").
    change (u" |") with (u" " ++ [pipe]). by rewrite <- !app_assoc. }
  rewrite Hstrip.
  assert (Hinner : strip_chars [pipe] (u"| " ++ join u" | " row ++ u" |")
                   = u" " ++ join u" | " row ++ u" ").
  { unfold strip_chars.
    change (u"| ") with ([pipe] ++ u" ").
    change (u" |") with (u" " ++ [pipe]).
    rewrite <- !app_assoc. rewrite lstrip_by_app_l by (by repeat constructor).
    change (u" " ++ join u" | " row ++ u" " ++ [pipe])
      with (32%N :: (join u" | " row ++ u" " ++ [pipe])).
    rewrite lstrip_by_cons_keep by done.
    change (32%N :: (join u" | " row ++ u" " ++ [pipe]))
      with (u" " ++ join u" | " row ++ u" " ++ [pipe]).
    rewrite !app_assoc. rewrite rstrip_by_app_r by (by repeat constructor).
    change (u" ") with [32%N]. by rewrite rstrip_by_snoc_keep. }
  rewrite Hinner, render_row_inner by done.
  rewrite split_join.
  - rewrite <- list_fmap_compose. rewrite <- (list_fmap_id row) at 2.
    apply Forall_fmap_ext_1. eapply Forall_impl; [exact Hrow|].
    intros c (_ & _ & Hc). by apply strip_padded_cell.
  - by destruct row.
  - apply Forall_fmap. eapply Forall_impl; [exact Hrow|].
    intros c (Hp & _ & _). cbv beta delta [compose pad]. change (u" ") with [32%N].
    rewrite !elem_of_app, !list_elem_of_singleton. unfold pipe in *.
    intros [?|[?|?]]; done.
Qed.

Lemma join_ends_with (sep : str) (b : N) (parts : list str) :
  parts ≠ [] → Forall (λ part, ∃ t, part = t ++ [b]) parts →
  ∃ t, join sep parts = t ++ [b].
Proof.
  intros Hne Hparts. induction Hparts as [|p parts [t Hp] _ IH]; [done|].
  destruct parts as [|p' parts]; cbn [join]; [by exists t|].
  destruct IH as [t' Ht']; [done|]. exists (p ++ sep ++ t').
  cbn [join] in Ht'. by rewrite Ht', <- !app_assoc.
Qed.

Lemma render_row_ends (row : list str) : ∃ t, render_row row = t ++ [pipe].
Proof.
  exists (u"| " ++ join u" | " row ++ u" "). unfold render_row.
  change (u" |") with (u" " ++ [pipe]). by rewrite <- !app_assoc.
Qed.

Lemma render_rule_ends (width : nat) : ∃ t, render_rule width = t ++ [pipe].
Proof.
  unfold render_rule. destruct width as [|width]; [by exists []|].
  rewrite replicate_S_end. rewrite (join_app (A:=N)). cbn [mjoin list_join].
  exists ([pipe] ++ mjoin (replicate width u"---|") ++ u"---").
  change (u"---|") with (u"---" ++ [pipe]) at 2.
  by rewrite app_nil_r, <- !app_assoc.
Qed.

Ltac absurd_member H :=
  repeat (apply elem_of_cons in H as [H|H]; [discriminate H|]);
  by apply elem_of_nil in H.

Lemma render_rule_no_newline (width : nat) : newline ∉ render_rule width.
Proof.
  unfold render_rule. rewrite elem_of_app, list_elem_of_singleton.
  intros [?|(l & Hin & Hl)%list_elem_of_join]; [done|].
  apply elem_of_replicate in Hl as [-> _].
  change (u"---|") with [45%N; 45%N; 45%N; 124%N] in Hin.
  unfold newline in Hin. absurd_member Hin.
Qed.

Lemma render_row_no_newline (row : list str) :
  Forall plain_cell row → newline ∉ render_row row.
Proof.
  intros Hrow. unfold render_row. rewrite !elem_of_app.
  change (u"| ") with [124%N; 32%N]. change (u" |") with [32%N; 124%N].
  intros [Hin|[Hin|Hin]];
    [unfold newline in Hin; absurd_member Hin| |unfold newline in Hin; absurd_member Hin].
  apply elem_of_join in Hin as [Hin|(c & Hc & Hin)].
  - change (u" | ") with [32%N; 124%N; 32%N] in Hin. unfold newline in Hin.
    absurd_member Hin.
  - rewrite Forall_forall in Hrow. by destruct (Hrow c Hc) as (_ & ? & _).
Qed.

Lemma contains_head (needle rest : str) : contains needle (needle ++ rest) = true.
Proof.
  assert (Hs : startswith (needle ++ rest) needle = true).
  { induction needle as [|c needle IH]; [by destruct rest|].
    cbn [app startswith]. by rewrite N.eqb_refl, IH. }
  destruct needle, rest; cbn [contains app] in *; by rewrite ?Hs.
Qed.

Lemma contains_app (needle a b : str) : contains needle (a ++ needle ++ b) = true.
Proof.
  induction a as [|c a IH]; [cbn [app]; apply contains_head|].
  cbn [app contains]. rewrite IH. apply orb_true_r.
Qed.

Lemma strip_render_table (header : list str) (body : list (list str)) :
  strip (render_table header body) = render_table header body.
Proof.
  destruct (join_ends_with [newline] pipe
              (render_row header :: render_rule (length header) :: (render_row <$> body)))
    as [t Ht]; [done| |].
  { constructor; [apply render_row_ends|].
    constructor; [apply render_rule_ends|].
    apply Forall_fmap, Forall_true. intros row. apply render_row_ends. }
  eapply (strip_keep _ pipe pipe); [|done|by exists t|done].
  unfold render_table. cbn [join]. unfold render_row.
  change (u"| ") with ([pipe] ++ u" "). rewrite <- !app_assoc. reflexivity.
Qed.

Lemma reply_lines_render_table (header : list str) (body : list (list str)) :
  Forall plain_cell header → Forall (Forall plain_cell) body →
  reply_lines (render_table header body)
  = render_row header :: render_rule (length header) :: (render_row <$> body).
Proof.
  intros Hh Hb. unfold reply_lines, trimmed. rewrite !strip_render_table.
  apply split_join; [done|].
  constructor; [by apply render_row_no_newline|].
  constructor; [apply render_rule_no_newline|].
  apply Forall_fmap. eapply Forall_impl; [exact Hb|].
  intros row Hrow. by apply render_row_no_newline.
Qed.

Lemma data_rows_render (header : list str) (body : list (list str)) :
  header ≠ [] →
  Forall (λ row, length row = length header ∧ Forall plain_cell row) body →
  data_rows header (render_row <$> body) = body.
Proof.
  intros Hne. induction 1 as [|row body [Hlen Hrow] _ IH]; [done|].
  cbn [fmap list_fmap data_rows].
  rewrite cells_render_row; [|by destruct row, header|done].
  rewrite bool_decide_eq_true_2 by done. by rewrite IH.
Qed.

Lemma parse_reply_render_table (sheet_name : str)
    (header : list str) (body : list (list str)) :
  header ≠ [] → Forall plain_cell header →
  Forall (λ row, length row = length header ∧ Forall plain_cell row) body →
  parse_reply sheet_name (render_table header body)
  = {| columns := header; rows := body |}.
Proof.
  intros Hne Hh Hb.
  assert (Hb' : Forall (Forall plain_cell) body).
  { eapply Forall_impl; [exact Hb|]. by intros row [_ ?]. }
  unfold parse_reply. rewrite reply_lines_render_table by done.
  cbn [lookup list_lookup default from_option id length].
  assert (Hp : contains [pipe] (render_row header) = true).
  { unfold render_row. change (u"| ") with ([pipe] ++ u" ").
    rewrite <- app_assoc. apply contains_head. }
  assert (Hs : contains separator (render_rule (length header)) = true).
  { unfold render_rule. destruct header as [|h header]; [done|].
    cbn [length replicate mjoin list_join].
    change (u"---|") with (separator ++ [pipe]) at 1.
    rewrite <- app_assoc. apply contains_app. }
  rewrite Hp, Hs, bool_decide_eq_true_2 by lia. cbn [andb].
  unfold table_df. cbn [lookup list_lookup default from_option id drop].
  rewrite cells_render_row by done. rewrite drop_0. by rewrite data_rows_render.
Qed.

(** X1. A table written the way the prompt shows it, a header row, a rule and
    one row for each line of the body, is read back as it was written:
    the cells get their text, in their order, whatever was written in them,
    if they hold no bar and no line break and have no space around them. *)
Theorem rendered_table_is_read_back (sheet_name : str)
    (header : list str) (body : list (list str)) :
  header ≠ [] → Forall plain_cell header →
  Forall (λ row, length row = length header ∧ Forall plain_cell row) body →
  parse_reply sheet_name (render_table header body)
  = {| columns := header; rows := body |}.
Proof.
  intros Hne Hh Hb. by apply parse_reply_render_table.
Qed.

Lemma rendered_table_is_read_back_witness :
  parse_reply u"预算" (render_table Sample2.example_header Sample2.example_body)
  = {| columns := Sample2.example_header; rows := Sample2.example_body |}.
Proof.
  apply rendered_table_is_read_back.
  - discriminate.
  - apply (bool_decide_unpack _). vm_compute. exact I.
  - apply (bool_decide_unpack _). vm_compute. exact I.
Defined.

(** ** The parser on any reply *)

Lemma cells_not_nil (line : str) : cells line ≠ [].
Proof.
  unfold cells. intros H%fmap_nil_inv. by apply split_not_nil in H.
Qed.

Lemma cells_stripped (line : str) : Forall (λ c, strip c = c) (cells line).
Proof.
  unfold cells. apply Forall_fmap, Forall_true. intros c. apply strip_idemp.
Qed.

Lemma parse_reply_cases (sheet_name r : str) :
  let lines := reply_lines r in
  let header := cells (default [] (lines !! 0)) in
  parse_reply sheet_name r
    = {| columns := header; rows := data_rows header (drop 2 lines) |}
  ∨ parse_reply sheet_name r
    = setitem difference_column no_difference_note
        {| columns := header; rows := [replicate (length header) no_difference] |}
  ∨ parse_reply sheet_name r = unparsed_df sheet_name (strip r).
Proof.
  intros lines header. unfold parse_reply. fold lines.
  destruct (bool_decide (1 < length lines) && contains [pipe] (default [] (lines !! 0))
            && contains separator (default [] (lines !! 1))); [by left|].
  destruct (contains [pipe] (default [] (lines !! 0))); [|by right; right].
  right; left. apply header_only_df_eq.
Qed.

(** X2. Whatever the reply, the table read from it has at least one column,
    and each of its rows has one cell for each column. *)
Theorem parsed_table_is_rectangular (sheet_name r : str) :
  let details_df := parse_reply sheet_name r in
  columns details_df ≠ []
  ∧ Forall (λ row, length row = length (columns details_df)) (rows details_df).
Proof.
  cbv zeta.
  destruct (parse_reply_cases sheet_name r) as [H|[H|H]]; rewrite H; clear H.
  - cbn [columns rows]. split; [apply cells_not_nil|].
    rewrite data_rows_filter. apply Forall_fmap, Forall_forall.
    intros line Hin. by apply list_elem_of_filter in Hin as [Hlen _].
  - unfold setitem. cbn [columns rows]. case_bool_decide; cbn [columns rows fmap list_fmap].
    + split; [apply cells_not_nil|]. apply Forall_singleton.
      by rewrite overwrite_replicate, length_fmap.
    + split; [by intros [_ ?]%app_eq_nil|]. apply Forall_singleton.
      by rewrite !length_app, length_replicate.
  - by repeat constructor.
Qed.

(** X3. White space before and after the reply changes nothing. *)
Theorem surrounding_space_is_ignored (sheet_name pre r post : str) :
  Forall (λ c, isspace c = true) pre → Forall (λ c, isspace c = true) post →
  parse_reply sheet_name (pre ++ r ++ post) = parse_reply sheet_name r.
Proof.
  intros Hpre Hpost. unfold parse_reply, reply_lines, trimmed.
  by rewrite strip_pad.
Qed.

Lemma surrounding_space_is_ignored_witness :
  parse_reply u"预算" (u"
  " ++ Sample.plain_header_reply ++ u"
")
  = parse_reply u"预算" Sample.plain_header_reply.
Proof.
  apply surrounding_space_is_ignored.
  - change (Forall (λ c, isspace c = true) [10%N; 32%N; 32%N]). by repeat constructor.
  - change (Forall (λ c, isspace c = true) [10%N]). by repeat constructor.
Defined.

Lemma stripped_literal (s : str) (a b : N) (t t' : str) :
  s = a :: t → s = t' ++ [b] → isspace a = false → isspace b = false →
  strip s = s.
Proof. intros Ha Hb ? ?. eapply strip_keep; eauto. Qed.

Lemma overwrite_Forall {C} (P : C → Prop) (label : str) (v : C)
    (labels : list str) (row : list C) :
  P v → Forall P row → Forall P (overwrite label v labels row).
Proof.
  intros Hv. revert row. induction labels as [|l labels IH]; intros row Hrow.
  - by destruct row.
  - destruct Hrow as [|c row Hc Hrow]; [done|]. cbn [overwrite].
    constructor; [by case_bool_decide|by apply IH].
Qed.

(** X4. Whatever the reply, no label and no cell of the table read from it
    starts or ends with white space. *)
Theorem parsed_table_is_stripped (sheet_name r : str) :
  let details_df := parse_reply sheet_name r in
  Forall (λ c, strip c = c) (columns details_df)
  ∧ Forall (Forall (λ c, strip c = c)) (rows details_df).
Proof.
  cbv zeta.
  assert (Hnote : strip no_difference_note = no_difference_note)
    by (vm_compute; reflexivity).
  assert (Hno : strip no_difference = no_difference) by (vm_compute; reflexivity).
  assert (Hcol : strip difference_column = difference_column)
    by (vm_compute; reflexivity).
  destruct (parse_reply_cases sheet_name r) as [H|[H|H]]; rewrite H; clear H.
  - cbn [columns rows]. split; [apply cells_stripped|].
    rewrite data_rows_filter. apply Forall_fmap, Forall_true.
    intros line. apply cells_stripped.
  - unfold setitem. cbn [columns rows]. case_bool_decide; cbn [columns rows fmap list_fmap].
    + split; [apply cells_stripped|]. apply Forall_singleton.
      apply overwrite_Forall; [done|]. by apply Forall_replicate.
    + split; [apply Forall_app; split; [apply cells_stripped|by constructor]|].
      apply Forall_singleton, Forall_app. split; [by apply Forall_replicate|by constructor].
  - unfold unparsed_df. cbn [columns rows].
    split; [repeat constructor; vm_compute; reflexivity|].
    repeat constructor; [|apply strip_idemp].
    assert (Hhead : u"Kimi报告在工作表 '" = 75%N :: u"imi报告在工作表 '")
      by (vm_compute; reflexivity).
    assert (Hlast : u"' 中未发现差异或返回格式不正确。"
                    = u"' 中未发现差异或返回格式不正确" ++ [12290%N])
      by (vm_compute; reflexivity).
    rewrite Hhead, Hlast.
    eapply (stripped_literal _ 75%N 12290%N); [done| |done..].
    by rewrite !app_assoc.
Qed.

Lemma strip_render_row (row : list str) : strip (render_row row) = render_row row.
Proof.
  destruct (render_row_ends row) as [t Ht].
  eapply (strip_keep _ pipe pipe); [|done|by exists t|done].
  unfold render_row. change (u"| ") with ([pipe] ++ u" ").
  rewrite <- !app_assoc. reflexivity.
Qed.

Lemma reply_lines_render_row (row : list str) :
  Forall plain_cell row → reply_lines (render_row row) = [render_row row].
Proof.
  intros Hrow. unfold reply_lines, trimmed. rewrite !strip_render_row.
  apply split_no_sep. by apply render_row_no_newline.
Qed.

Lemma contains_pipe_render_row (row : list str) :
  contains [pipe] (render_row row) = true.
Proof.
  unfold render_row. change (u"| ") with ([pipe] ++ u" ").
  rewrite <- app_assoc. apply contains_head.
Qed.

(** X5. An empty table can be written in two ways, and they are not read the
    same: the header alone gives one row, which says that nothing differs;
    the header with its rule gives no row at all. *)
Theorem empty_table_with_rule_has_no_row (sheet_name : str) (header : list str) :
  header ≠ [] → Forall plain_cell header →
  length (rows (parse_reply sheet_name (render_row header))) = 1
  ∧ parse_reply sheet_name (render_table header [])
    = {| columns := header; rows := [] |}.
Proof.
  intros Hne Hh. split.
  - rewrite (parse_reply_single sheet_name _ (render_row header)).
    + rewrite header_only_df_eq. unfold setitem. cbn [columns rows].
      by case_bool_decide.
    + by apply reply_lines_render_row.
    + apply contains_pipe_render_row.
  - by apply parse_reply_render_table.
Qed.

Lemma empty_table_with_rule_has_no_row_witness :
  length (rows (parse_reply u"预算" (render_row Sample2.example_header))) = 1
  ∧ parse_reply u"预算" (render_table Sample2.example_header [])
    = {| columns := Sample2.example_header; rows := [] |}.
Proof.
  apply empty_table_with_rule_has_no_row.
  - discriminate.
  - apply (bool_decide_unpack _). vm_compute. exact I.
Defined.

Lemma required_header_render (file1_name file2_name : str) :
  required_header file1_name file2_name
  = render_row (contract_header file1_name file2_name).
Proof.
  unfold required_header, render_row, contract_header. cbn [join].
  change (u"| 项目 | 文件1：") with (u"| " ++ u"项目" ++ u" | " ++ u"文件1：").
  change (u" | 文件2：") with (u" | " ++ u"文件2：").
  change (u" | 差异说明 |") with (u" | " ++ u"差异说明" ++ u" |").
  by rewrite <- !app_assoc.
Qed.

Lemma plain_cell_file_label (label stem : str) (a : N) (t : str) :
  label = a :: t → isspace a = false →
  pipe ∉ label → newline ∉ label → pipe ∉ stem → newline ∉ stem →
  plain_cell (label ++ stem ++ u".xlsx").
Proof.
  intros -> Ha Hlp Hln Hsp Hsn. unfold plain_cell.
  assert (Hx : ∀ c, c ∈ u".xlsx" → c ≠ pipe ∧ c ≠ newline).
  { intros c Hc. change (u".xlsx") with [46%N; 120%N; 108%N; 115%N; 120%N] in Hc.
    unfold pipe, newline.
    repeat (apply elem_of_cons in Hc as [->|Hc]; [done|]).
    by apply elem_of_nil in Hc. }
  split; [|split].
  - rewrite !elem_of_app. intros [?|[?|Hc]]; [done|done|]. by destruct (Hx _ Hc).
  - rewrite !elem_of_app. intros [?|[?|Hc]]; [done|done|]. by destruct (Hx _ Hc).
  - eapply (strip_keep _ a 120%N); [reflexivity|done| |done].
    exists ((a :: t) ++ stem ++ u".xls").
    change (u".xlsx") with (u".xls" ++ [120%N]). by rewrite <- !app_assoc.
Qed.

Lemma plain_contract_header (stem1 stem2 : str) :
  pipe ∉ stem1 → newline ∉ stem1 → pipe ∉ stem2 → newline ∉ stem2 →
  Forall plain_cell (contract_header (stem1 ++ u".xlsx") (stem2 ++ u".xlsx")).
Proof.
  intros H1p H1n H2p H2n. unfold contract_header.
  assert (Hlit : ∀ s : str, bool_decide ((pipe ∉ s) ∧ (newline ∉ s) ∧ strip s = s) = true
                            → plain_cell s).
  { intros s Hs. by apply bool_decide_eq_true_1 in Hs. }
  constructor; [apply Hlit; vm_compute; reflexivity|].
  constructor.
  { eapply (plain_cell_file_label _ _ 25991%N); [|done| | |done|done].
    - change (u"文件1：") with [25991%N; 20214%N; 49%N; 65306%N]. reflexivity.
    - apply (bool_decide_unpack _). vm_compute. exact I.
    - apply (bool_decide_unpack _). vm_compute. exact I. }
  constructor.
  { eapply (plain_cell_file_label _ _ 25991%N); [|done| | |done|done].
    - change (u"文件2：") with [25991%N; 20214%N; 50%N; 65306%N]. reflexivity.
    - apply (bool_decide_unpack _). vm_compute. exact I.
    - apply (bool_decide_unpack _). vm_compute. exact I. }
  constructor; [apply Hlit; vm_compute; reflexivity|constructor].
Qed.

(** X6. The answers that the prompt asks for are read as it intends, for files
    named [….xlsx] without pipe or line break in their names: the demanded
    header alone gives the four demanded columns and one row saying that
    nothing differs; the demanded header, a rule and rows of four plain
    cells give these columns and these rows. *)
Theorem demanded_answers_are_read_back (sheet_name stem1 stem2 : str)
    (body : list (list str)) :
  let file1_name := stem1 ++ u".xlsx" in
  let file2_name := stem2 ++ u".xlsx" in
  let header := contract_header file1_name file2_name in
  pipe ∉ stem1 → newline ∉ stem1 → pipe ∉ stem2 → newline ∉ stem2 →
  Forall (λ row, length row = 4 ∧ Forall plain_cell row) body →
  required_header file1_name file2_name = render_row header
  ∧ parse_reply sheet_name (required_header file1_name file2_name)
    = {| columns := header;
         rows := [[u"无差异"; u"无差异"; u"无差异";
                   u"Kimi报告在此工作表中未发现显著差异。"]] |}
  ∧ parse_reply sheet_name (render_table header body)
    = {| columns := header; rows := body |}.
Proof.
  intros file1_name file2_name header H1p H1n H2p H2n Hbody.
  pose proof (plain_contract_header stem1 stem2 H1p H1n H2p H2n) as Hh.
  fold file1_name file2_name header in Hh.
  split; [apply required_header_render|]. split.
  - rewrite required_header_render. fold header.
    rewrite (parse_reply_single sheet_name _ (render_row header));
      [|by apply reply_lines_render_row|apply contains_pipe_render_row].
    rewrite header_only_df_eq, cells_render_row by done.
    unfold setitem. cbn [columns rows].
    rewrite bool_decide_eq_true_2.
    + cbn [fmap list_fmap]. rewrite overwrite_replicate.
      unfold header, contract_header. cbn [fmap list_fmap].
      rewrite !bool_decide_eq_false_2
        by (intros H; apply (f_equal (λ s, s !! 2)) in H; vm_compute in H;
            discriminate H).
      by rewrite bool_decide_eq_true_2 by (vm_compute; reflexivity).
    + unfold header, contract_header. do 3 right. left.
  - by apply parse_reply_render_table.
Qed.

Lemma demanded_answers_are_read_back_witness :
  parse_reply u"预算" (required_header u"Report_v2.xlsx" u"Report_v1.xlsx")
  = {| columns := Sample2.example_header;
       rows := [[u"无差异"; u"无差异"; u"无差异";
                 u"Kimi报告在此工作表中未发现显著差异。"]] |}.
Proof.
  destruct (demanded_answers_are_read_back u"预算" u"Report_v2" u"Report_v1"
              Sample2.example_body) as (_ & H & _).
  - apply (bool_decide_unpack _). vm_compute. exact I.
  - apply (bool_decide_unpack _). vm_compute. exact I.
  - apply (bool_decide_unpack _). vm_compute. exact I.
  - apply (bool_decide_unpack _). vm_compute. exact I.
  - apply (bool_decide_unpack _). vm_compute. exact I.
  - change (u"Report_v2.xlsx") with (u"Report_v2" ++ u".xlsx").
    change (u"Report_v1.xlsx") with (u"Report_v1" ++ u".xlsx").
    rewrite H. vm_compute. reflexivity.
Defined.

(** ** The prompt *)

Lemma contains_app_r (needle a b : str) :
  contains needle b = true → contains needle (a ++ b) = true.
Proof.
  intros Hb. induction a as [|c a IH]; [done|].
  cbn [app contains]. rewrite IH. apply orb_true_r.
Qed.

Ltac find_inside :=
  repeat first [apply contains_head | apply contains_app_r].

(** X7. The prompt holds both snapshots as they are, each between its fences,
    and the header line it demands, which is the line the parser reads as
    the four demanded columns. *)
Theorem prompt_embeds_snapshots_and_header
    (file1_content file2_content file1_name file2_name sheet_name : str) :
  let text := prompt file1_content file2_content file1_name file2_name sheet_name in
  contains (json_fence file1_content) text = true
  ∧ contains (json_fence file2_content) text = true
  ∧ contains (render_row (contract_header file1_name file2_name)) text = true.
Proof.
  cbv zeta. rewrite <- required_header_render. unfold prompt.
  split; [|split]; find_inside.
Qed.

(** ** The client, for any number of attempts *)

Lemma failed_rounds_S (req : Request) (delay : N) (n : nat) :
  failed_rounds req delay (S n) = [Call req; Sleep delay] ++ failed_rounds req delay n.
Proof. reflexivity. Qed.

Lemma not_failed_inv (reply : Reply) :
  failed reply = false → ∃ content, reply = Replied HTTPStatus_OK content.
Proof.
  destruct reply as [code content|e]; [|done]. cbn [failed].
  destruct (code =? HTTPStatus_OK)%N eqn:Hc; [|done].
  apply N.eqb_eq in Hc as ->. by exists content.
Qed.

Lemma attempts_outcome (env : Env) (req : Request) (retries : nat) (delay : N)
    (remaining : nat) (tr : trace) :
  remaining ≤ retries →
  (∃ n content,
     n < remaining
     ∧ attempts env req retries delay remaining tr
       = (Ok (Some content), tr ++ failed_rounds req delay n ++ [Call req])
     ∧ Generation_call env (tr ++ failed_rounds req delay n) req
       = Replied HTTPStatus_OK content
     ∧ ∀ i, i < n →
         failed (Generation_call env (tr ++ failed_rounds req delay i) req) = true)
  ∨ (attempts env req retries delay remaining tr
     = (Ok None,
        tr ++ match remaining with
              | O => []
              | S n => failed_rounds req delay n ++ [Call req]
              end)
     ∧ ∀ i, i < remaining →
         failed (Generation_call env (tr ++ failed_rounds req delay i) req) = true).
Proof.
  revert tr. induction remaining as [|remaining IH]; intros tr Hle.
  - right. split; [by rewrite app_nil_r|]. intros i Hi. lia.
  - rewrite attempts_step.
    destruct (failed (Generation_call env tr req)) eqn:Hf.
    + destruct remaining as [|remaining].
      * rewrite bool_decide_eq_false_2 by lia. right. split; [done|].
        intros i Hi. assert (i = 0) as -> by lia. by rewrite app_nil_r.
      * rewrite bool_decide_eq_true_2 by lia.
        destruct (IH (tr ++ [Call req; Sleep delay])) as
          [(n & content & Hn & Hrun & Hok & Hbefore)|[Hrun Hall]]; [lia| |].
        -- left. exists (S n), content. split; [lia|].
           rewrite failed_rounds_S, <- !app_assoc in *. split; [done|].
           split; [by rewrite !app_assoc in *|].
           intros [|i] Hi; [by rewrite app_nil_r|].
           rewrite failed_rounds_S. rewrite app_assoc. apply Hbefore. lia.
        -- right. rewrite Hrun. split.
           ++ by rewrite failed_rounds_S, <- !app_assoc.
           ++ intros [|i] Hi; [by rewrite app_nil_r|].
              rewrite failed_rounds_S. rewrite app_assoc. apply Hall. lia.
    + apply not_failed_inv in Hf as Hr. destruct Hr as [content Hr].
      left. exists 0, content. rewrite Hr. cbn [failed_rounds replicate mjoin list_join app].
      rewrite app_nil_r. split; [lia|]. split; [done|]. split; [done|]. intros i Hi. lia.
Qed.

(** X8. For any number of attempts and any delay, the client ends in one of two
    ways. Either some attempt gets a reply with status OK, after [n] failed
    attempts each followed by a sleep, with [n] less than [retries]: it
    then gives the content of that reply as it is, and sends and sleeps no
    more. Or all [retries] attempts fail: it gives [None], having slept
    after each attempt but the last; with no attempt allowed it sends
    nothing. It never raises. *)
Theorem client_stops_at_first_reply_or_gives_up
    (env : Env) (c1 c2 n1 n2 sheet api_key : str) (retries : nat) (delay : N)
    (tr : trace) :
  let req := Build_Request c1 c2 n1 n2 sheet api_key in
  let run := get_comparison_from_kimi env c1 c2 n1 n2 sheet api_key retries delay tr in
  (∃ n content,
     n < retries
     ∧ run = (Ok (Some content), tr ++ failed_rounds req delay n ++ [Call req])
     ∧ Generation_call env (tr ++ failed_rounds req delay n) req
       = Replied HTTPStatus_OK content
     ∧ ∀ i, i < n →
         failed (Generation_call env (tr ++ failed_rounds req delay i) req) = true)
  ∨ (run = (Ok None,
            tr ++ match retries with
                  | O => []
                  | S n => failed_rounds req delay n ++ [Call req]
                  end)
     ∧ ∀ i, i < retries →
         failed (Generation_call env (tr ++ failed_rounds req delay i) req) = true).
Proof.
  intros req run. unfold run, get_comparison_from_kimi. fold req.
  by apply attempts_outcome.
Qed.

Lemma client_stops_at_first_reply_or_gives_up_witness :
  let req := Build_Request u"[]" u"[]" u"A.xlsx" u"B.xlsx" u"预算" u"sk-0" in
  get_comparison_from_kimi Sample2.second_time_lucky
    u"[]" u"[]" u"A.xlsx" u"B.xlsx" u"预算" u"sk-0" 3 5 []
  = (Ok (Some Sample.table_reply), [Call req; Sleep 5; Call req]).
Proof.
  intros req.
  destruct (client_stops_at_first_reply_or_gives_up Sample2.second_time_lucky
              u"[]" u"[]" u"A.xlsx" u"B.xlsx" u"预算" u"sk-0" 3 5 [])
    as [(n & content & Hn & Hrun & Hok & Hbefore)|[_ Hall]].
  - fold req in Hrun, Hok, Hbefore. rewrite Hrun.
    destruct n as [|[|n]].
    + vm_compute in Hok. discriminate Hok.
    + vm_compute in Hok. injection Hok as <-. vm_compute. reflexivity.
    + specialize (Hbefore 1 ltac:(lia)). vm_compute in Hbefore. discriminate Hbefore.
  - specialize (Hall 1 ltac:(lia)). vm_compute in Hall. discriminate Hall.
Defined.

(** ** What a run adds to the trace *)

Global Instance Forall_composable (ok : event → Prop) : Composable (Forall ok).
Proof. split; [constructor|]. intros tr1 tr2 H1 H2. by apply Forall_app. Qed.

Section Adds.
Context (P : trace → Prop) `{!Composable P}.

Lemma adds_nothing {A} (m : M A) : (∀ tr, (m tr).2 = tr) → adds P m.
Proof.
  intros Hm tr. exists []. rewrite app_nil_r. split; [done|apply composable_nil].
Qed.

Lemma adds_ret {A} (a : A) : adds P (mret a).
Proof. by apply adds_nothing. Qed.

Lemma adds_lift {A} (r : result A) : adds P (lift r).
Proof. by apply adds_nothing. Qed.

Lemma adds_bind {A B} (m : M A) (f : A → M B) :
  adds P m → (∀ a, adds P (f a)) → adds P (m ≫= f).
Proof.
  intros Hm Hf tr. unfold mbind, M_bind.
  destruct (Hm tr) as (added & Htr & Hok).
  destruct (m tr) as [[a|e] tr1]; cbn [snd] in Htr; subst tr1.
  - destruct (Hf a (tr ++ added)) as (added' & Htr' & Hok').
    exists (added ++ added'). rewrite Htr', app_assoc. split; [done|].
    by apply composable_app.
  - by exists added.
Qed.

Lemma adds_lift_bind {A B} (r : result A) (f : A → M B) :
  (∀ a, r = Ok a → adds P (f a)) → adds P (lift r ≫= f).
Proof.
  intros Hf. destruct r as [a|e]; [|by apply adds_nothing].
  intros tr. by apply Hf.
Qed.

Lemma adds_catch {A} (m : M A) (h : exn → M A) :
  adds P m → (∀ e, adds P (h e)) → adds P (catch m h).
Proof.
  intros Hm Hh tr. unfold catch.
  destruct (Hm tr) as (added & Htr & Hok).
  destruct (m tr) as [[a|e] tr1]; cbn [snd] in Htr; subst tr1.
  - by exists added.
  - destruct (Hh e (tr ++ added)) as (added' & Htr' & Hok').
    exists (added ++ added'). rewrite Htr', app_assoc. split; [done|].
    by apply composable_app.
Qed.

Lemma adds_attempt {A} (m : M A) : adds P m → adds P (attempt m).
Proof.
  intros Hm tr. unfold attempt. destruct (Hm tr) as (added & Htr & Hok).
  destruct (m tr) as [r tr1]. by exists added.
Qed.

Lemma adds_guarded (refusal : trace → option exn) (evs : list event) :
  P evs → adds P (guarded refusal evs).
Proof.
  intros Hevs tr. unfold guarded. destruct (refusal tr).
  - exists []. rewrite app_nil_r. split; [done|apply composable_nil].
  - by exists evs.
Qed.

Lemma adds_emit (ev : event) : P [ev] → adds P (emit ev).
Proof. intros Hev tr. by exists [ev]. Qed.

Lemma adds_for_each {A} (body : A → M unit) (xs : list A) :
  (∀ x, x ∈ xs → adds P (body x)) → adds P (for_each body xs).
Proof.
  induction xs as [|x xs IH]; intros Hb; cbn [for_each].
  - apply adds_ret.
  - apply adds_bind; [apply Hb; by left|]. intros _. apply IH.
    intros y Hy. apply Hb. by right.
Qed.

Lemma adds_request_once (env : Env) (req : Request) :
  P [Call req] → adds P (request_once env req).
Proof.
  intros Hc tr. exists [Call req]. split; [|done]. unfold request_once.
  destruct (Generation_call env tr req) as [code content|e]; [|done].
  by destruct (code =? HTTPStatus_OK)%N.
Qed.

Lemma adds_attempts (env : Env) (req : Request) (retries : nat) (delay : N)
    (remaining : nat) :
  P [Call req] → P [Sleep delay] →
  adds P (attempts env req retries delay remaining).
Proof.
  intros Hc Hs. induction remaining as [|remaining IH]; cbn [attempts].
  - apply adds_ret.
  - apply adds_bind; [by apply adds_request_once|].
    intros [content|]; [apply adds_ret|].
    apply adds_bind; [|done].
    case_bool_decide; [by apply adds_emit|apply adds_ret].
Qed.

Lemma adds_write_sheet (env : Env) (file sheet : str) (df : Table) :
  P [ToExcel file sheet df] → adds P (write_sheet env file sheet df).
Proof. apply adds_guarded. Qed.
End Adds.

Lemma adds_mono {A} (P Q : trace → Prop) (m : M A) :
  (∀ tr, P tr → Q tr) → adds P m → adds Q m.
Proof.
  intros Himp Hm tr. destruct (Hm tr) as (added & Htr & Hok).
  exists added. split; [done|]. by apply Himp.
Qed.

(** A writer only adds what its body adds, between its opening and, when
    the outside lets it, its closing. *)
Lemma adds_with_writer {A} (P Q : trace → Prop) (env : Env) (file : str) (body : M A) :
  Q [] →
  (∀ tr mid, P mid → close env (tr ++ [OpenWriter file] ++ mid) file ≠ None →
             Q ([OpenWriter file] ++ mid)) →
  (∀ mid, P mid → Q ([OpenWriter file] ++ mid ++ [CloseWriter file])) →
  adds P body → adds Q (with_writer env file body).
Proof.
  intros Hnil Hopen Hboth Hb tr. unfold with_writer.
  destruct (ExcelWriter env tr file); [exists []; by rewrite app_nil_r|].
  destruct (Hb (tr ++ [OpenWriter file])) as (mid & Htr & Hmid).
  destruct (body (tr ++ [OpenWriter file])) as [r tr1]. cbn [snd] in Htr. subst tr1.
  destruct (close env _ file) eqn:Hc; cbn [snd].
  - exists ([OpenWriter file] ++ mid). rewrite <- app_assoc. split; [done|].
    apply (Hopen tr); [done|]. rewrite <- app_assoc in Hc. by rewrite Hc.
  - exists ([OpenWriter file] ++ mid ++ [CloseWriter file]).
    rewrite <- !app_assoc. split; [done|]. by apply Hboth.
Qed.

Lemma sheet_title_length (sheet_name suffix : str) :
  length (sheet_title sheet_name suffix) ≤ 25 + length suffix.
Proof.
  unfold sheet_title, prefix_slice. rewrite length_app, length_take. lia.
Qed.

Lemma read_workbook_adds_nothing (env : Env) (path : str) (tr : trace) :
  (read_workbook env path tr).2 = tr.
Proof. done. Qed.

Lemma open_pair_adds_nothing (env : Env) (file1_path file2_path : str) (tr : trace) :
  (open_pair env file1_path file2_path tr).2 = tr.
Proof.
  unfold open_pair, mbind, M_bind, read_workbook.
  destruct (ExcelFile env tr file1_path); [|done].
  by destruct (ExcelFile env tr file2_path).
Qed.

(** The steps of a run, for a property [P] of traces that is kept by each
    thing a run may do. *)
Section Run.
Context (env : Env) (output_dir api_key : str) (names : list (str * str)).
Context (P : trace → Prop) `{!Composable P}.

Let overall := overall_output_filename env output_dir.
Let report (file : str) : Prop :=
  file = overall ∨ ∃ n1 n2, (n1, n2) ∈ names ∧ file = pair_report_name output_dir n1 n2.

Context (Hcall : ∀ q, (req_name1 q, req_name2 q) ∈ names → req_api_key q = api_key →
                      P [Call q]).
Context (Hsleep : P [Sleep default_delay]).
Context (Hsheet : ∀ n1 n2 title df, (n1, n2) ∈ names → length title ≤ 30 →
                    P [ToExcel (pair_report_name output_dir n1 n2) title df]).
Context (Hoverview : ∀ df, P [ToExcel overall u"总览" df]).
Context (Hopen : ∀ file tr mid, report file → P mid →
                   close env (tr ++ [OpenWriter file] ++ mid) file ≠ None →
                   P ([OpenWriter file] ++ mid)).
Context (Hclose : ∀ file mid, report file → P mid →
                    P ([OpenWriter file] ++ mid ++ [CloseWriter file])).

Lemma adds_compare_sheet (n1 n2 : str) (xls1 xls2 : Workbook) (sheet_name : str) :
  (n1, n2) ∈ names →
  adds P (compare_sheet env (pair_report_name output_dir n1 n2) xls1 xls2
            n1 n2 api_key sheet_name).
Proof.
  intros Hin. unfold compare_sheet.
  assert (Hw : ∀ suffix df, length suffix ≤ 5 →
            adds P (write_sheet env (pair_report_name output_dir n1 n2)
                      (sheet_title sheet_name suffix) df)).
  { intros suffix df Hs. apply adds_write_sheet; [done|]. apply Hsheet; [done|].
    pose proof (sheet_title_length sheet_name suffix). lia. }
  apply adds_lift_bind; [done|]. intros df1 _.
  apply adds_lift_bind; [done|]. intros df2 _.
  destruct (equals df1 df2).
  - apply adds_bind; [done| |intros _]; apply Hw; vm_compute; lia.
  - apply adds_bind; [done| |].
    + apply adds_attempts; [done| |done]. by apply Hcall.
    + intros r. destruct (truthy r); [|apply Hw; vm_compute; lia].
      apply adds_catch; [done| |intros _; apply Hw; vm_compute; lia].
      apply adds_bind; [done|apply Hw; vm_compute; lia|].
      intros _. apply adds_guarded; [done|]. apply composable_nil.
Qed.

Lemma adds_write_pair_report (n1 n2 : str) (xls1 xls2 : Workbook)
    (sheets1 sheets2 : gset str) :
  (n1, n2) ∈ names →
  adds P (write_pair_report env (pair_report_name output_dir n1 n2) xls1 xls2
            sheets1 sheets2 n1 n2 api_key).
Proof.
  intros Hin. unfold write_pair_report.
  assert (Hr : report (pair_report_name output_dir n1 n2)).
  { right. by exists n1, n2. }
  apply (adds_with_writer P P); [apply composable_nil| | |].
  - intros tr mid. by apply Hopen.
  - intros mid. by apply Hclose.
  - apply adds_bind; [done| |].
    + apply adds_write_sheet; [done|]. apply Hsheet; [done|]. vm_compute. lia.
    + intros _. apply adds_for_each; [done|]. intros sheet_name _.
      by apply adds_compare_sheet.
Qed.

Lemma adds_compare_pair (file_pair : str * str) :
  basenames file_pair ∈ names →
  adds P (compare_pair env output_dir api_key file_pair).
Proof.
  destruct file_pair as [file1_path file2_path]. intros Hin. unfold compare_pair.
  apply adds_bind; [done| |].
  - apply adds_attempt, adds_nothing; [done|]. apply open_pair_adds_nothing.
  - intros [[[[xls1 xls2] sheets1] sheets2]|e]; [|by apply adds_ret].
    destruct (sorted_names (sheets1 ∩ sheets2)) eqn:Hc; [by apply adds_ret|].
    apply adds_catch; [done| |intros e; by apply adds_ret].
    apply adds_bind; [done| |intros _; by apply adds_ret].
    by apply adds_write_pair_report.
Qed.

Lemma adds_compare_pairs (file_pairs : list (str * str))
    (overview_data : list OverviewEntry) :
  Forall (λ file_pair, basenames file_pair ∈ names) file_pairs →
  adds P (compare_pairs env output_dir api_key file_pairs overview_data).
Proof.
  intros Hall. revert overview_data.
  induction Hall as [|file_pair file_pairs Hin _ IH]; intros overview_data;
    cbn [compare_pairs].
  - by apply adds_ret.
  - apply adds_bind; [done|by apply adds_compare_pair|]. intros e. apply IH.
Qed.

Lemma adds_write_overall (file_pairs : list (str * str)) :
  Forall (λ file_pair, basenames file_pair ∈ names) file_pairs →
  adds P (write_overall env output_dir api_key file_pairs).
Proof.
  intros Hall. unfold write_overall. fold overall.
  apply (adds_with_writer P P); [apply composable_nil| | |].
  - intros tr mid. apply Hopen. by left.
  - intros mid. apply Hclose. by left.
  - apply adds_bind; [done|by apply adds_compare_pairs|].
    intros overview_data. apply adds_write_sheet; [done|]. apply Hoverview.
Qed.
End Run.

(** ** Paths *)

Lemma split_app (sep : N) (a b : str) :
  split sep (a ++ sep :: b) = split sep a ++ split sep b.
Proof.
  induction a as [|c a IH]; cbn [app split].
  - by rewrite N.eqb_refl.
  - rewrite IH. destruct (c =? sep)%N; [done|].
    pose proof (split_not_nil sep a). by destruct (split sep a).
Qed.

Lemma split_parts_no_sep (sep : N) (s : str) :
  Forall (λ part, sep ∉ part) (split sep s).
Proof.
  induction s as [|c s IH]; cbn [split].
  - repeat constructor. by intros ?%elem_of_nil.
  - destruct (c =? sep)%N eqn:Hc.
    + constructor; [by intros ?%elem_of_nil|done].
    + apply N.eqb_neq in Hc.
      destruct (split sep s) as [|w ws]; [repeat constructor|].
      * intros [->|?%elem_of_nil]%elem_of_cons; done.
      * inversion_clear IH as [|?? Hw Hws]. constructor; [|done].
        intros [->|?]%elem_of_cons; done.
Qed.

Lemma basename_no_slash (p : str) : slash ∉ basename p.
Proof.
  unfold basename. pose proof (split_parts_no_sep slash p) as Hall.
  pose proof (split_not_nil slash p) as Hne.
  destruct (split slash p) as [|w ws] using rev_ind; [done|].
  rewrite last_last. apply Forall_app in Hall as [_ Hall].
  by inversion_clear Hall.
Qed.

Lemma basename_no_dir (name : str) : slash ∉ name → basename name = name.
Proof. intros Hn. unfold basename. by rewrite split_no_sep. Qed.

Lemma basename_after_slash (dir name : str) :
  slash ∉ name → basename (dir ++ slash :: name) = name.
Proof.
  intros Hn. unfold basename. rewrite split_app, (split_no_sep _ name) by done.
  apply last_last.
Qed.

Lemma endswith_slash (a : str) :
  endswith a [slash] = true → ∃ a', a = a' ++ [slash].
Proof.
  unfold endswith. cbn [rev app]. destruct (rev a) as [|c r] eqn:Hr; [done|].
  cbn [startswith]. intros Hc. apply andb_true_iff in Hc as [Hc%N.eqb_eq _].
  subst c. exists (rev r). apply (f_equal (@rev N)) in Hr. cbn [rev] in Hr.
  by rewrite rev_involutive in Hr.
Qed.

Lemma startswith_slash (b : str) :
  startswith b [slash] = true → slash ∈ b.
Proof.
  destruct b as [|c b]; [done|]. cbn [startswith].
  intros Hc. apply andb_true_iff in Hc as [Hc%N.eqb_eq _]. subst c. by left.
Qed.

(** The file name of a path made of a directory and a name is the name. *)
Lemma basename_path_join (dir name : str) :
  slash ∉ name → basename (path_join dir name) = name.
Proof.
  intros Hn. unfold path_join.
  destruct (startswith name [slash]) eqn:Hs.
  { by apply startswith_slash in Hs. }
  destruct dir as [|c dir]; [by apply basename_no_dir|].
  destruct (endswith (c :: dir) [slash]) eqn:He.
  - apply endswith_slash in He as [a' ->]. rewrite <- app_assoc.
    by apply basename_after_slash.
  - by apply basename_after_slash.
Qed.

Lemma report_name_no_slash (file1_path file2_path : str) :
  slash ∉ u"Comparison_" ++ basename file1_path ++ u"_vs_" ++ basename file2_path
          ++ u".xlsx".
Proof.
  pose proof (basename_no_slash file1_path). pose proof (basename_no_slash file2_path).
  rewrite !elem_of_app. intros [H1|[?|[H1|[?|H1]]]]; try done.
  - change (u"Comparison_") with
      [67%N; 111%N; 109%N; 112%N; 97%N; 114%N; 105%N; 115%N; 111%N; 110%N; 95%N] in H1.
    unfold slash in H1. absurd_member H1.
  - change (u"_vs_") with [95%N; 118%N; 115%N; 95%N] in H1.
    unfold slash in H1. absurd_member H1.
  - change (u".xlsx") with [46%N; 120%N; 108%N; 115%N; 120%N] in H1.
    unfold slash in H1. absurd_member H1.
Qed.

(** X9. The report of a pair lies in the output directory under a name made of
    the two file names, and the overview tells this name, without the
    directory, for each pair that went through. *)
Theorem completed_entry_names_the_pair_report
    (env : Env) (output_dir api_key file1_path file2_path : str)
    (e : OverviewEntry) (tr tr' : trace) :
  let name := u"Comparison_" ++ basename file1_path ++ u"_vs_"
              ++ basename file2_path ++ u".xlsx" in
  compare_pair env output_dir api_key (file1_path, file2_path) tr = (Ok e, tr') →
  entry_status e = Completed →
  pair_report_name output_dir (basename file1_path) (basename file2_path)
  = path_join output_dir name
  ∧ basename (path_join output_dir name) = name
  ∧ entry_note e = u"比较结果已保存至: " ++ name.
Proof.
  intros name Hrun Hst. split; [done|].
  assert (Hb : basename (path_join output_dir name) = name).
  { apply basename_path_join, report_name_no_slash. }
  split; [done|]. rewrite compare_pair_eq in Hrun. cbv zeta in Hrun.
  destruct (open_pair env file1_path file2_path tr)
    as [[[[[xls1 xls2] sheets1] sheets2]|err] tr1];
    [|injection Hrun as <- _; discriminate Hst].
  destruct (sorted_names (sheets1 ∩ sheets2));
    [injection Hrun as <- _; discriminate Hst|].
  destruct (write_pair_report _ _ _ _ _ _ _ _ _ tr1) as [[[]|err] tr2];
    injection Hrun as <- _; [|discriminate Hst].
  cbn [entry_note entry]. unfold pair_report_name. fold name. by rewrite Hb.
Qed.

Lemma completed_entry_names_the_pair_report_witness :
  ∃ e tr',
    compare_pair (Sample.world Sample.three_files Sample.overloaded) u"out" u"sk-0"
      (u"in/A.xlsx", u"in/B.xlsx") [] = (Ok e, tr')
    ∧ entry_note e = u"比较结果已保存至: Comparison_A.xlsx_vs_B.xlsx.xlsx".
Proof.
  destruct (compare_pair_never_raises
              (Sample.world Sample.three_files Sample.overloaded) u"out" u"sk-0"
              (u"in/A.xlsx", u"in/B.xlsx") []) as (e & tr' & Hrun & _).
  exists e, tr'. split; [exact Hrun|].
  assert (Hst : entry_status e = Completed).
  { assert (He : (compare_pair (Sample.world Sample.three_files Sample.overloaded)
                    u"out" u"sk-0" (u"in/A.xlsx", u"in/B.xlsx") []).1 = Ok e)
      by (by rewrite Hrun).
    vm_compute in He. injection He as <-. reflexivity. }
  destruct (completed_entry_names_the_pair_report _ _ _ _ _ _ _ _ Hrun Hst)
    as (_ & _ & Hnote).
  rewrite Hnote. vm_compute. reflexivity.
Defined.

(** ** A whole run *)

Lemma basenames_combinations2 (files : list str) :
  Forall (λ file_pair, basenames file_pair ∈ combinations2 (basename <$> files))
         (combinations2 files).
Proof.
  apply Forall_forall. intros [a b] Hin. rewrite combinations2_fmap.
  apply list_elem_of_fmap. by exists (a, b).
Qed.

Lemma perform_comparison_adds (env : Env) (input_dir output_dir api_key : str)
    (P : trace → Prop) `{!Composable P} :
  let names := combinations2 (basename <$> excel_files env input_dir) in
  let overall := overall_output_filename env output_dir in
  let report file :=
    file = overall
    ∨ ∃ n1 n2, (n1, n2) ∈ names ∧ file = pair_report_name output_dir n1 n2 in
  (∀ q, (req_name1 q, req_name2 q) ∈ names → req_api_key q = api_key → P [Call q]) →
  P [Sleep default_delay] →
  (∀ n1 n2 title df, (n1, n2) ∈ names → length title ≤ 30 →
     P [ToExcel (pair_report_name output_dir n1 n2) title df]) →
  (∀ df, P [ToExcel overall u"总览" df]) →
  (∀ file tr mid, report file → P mid →
     close env (tr ++ [OpenWriter file] ++ mid) file ≠ None →
     P ([OpenWriter file] ++ mid)) →
  (∀ file mid, report file → P mid →
     P ([OpenWriter file] ++ mid ++ [CloseWriter file])) →
  ∀ tr, ∃ added,
    (perform_comparison env input_dir output_dir api_key tr).2 = tr ++ added
    ∧ P added.
Proof.
  intros names overall report Hcall Hsleep Hsheet Hoverview Hopen Hclose tr.
  unfold perform_comparison. case_bool_decide.
  { exists []. rewrite app_nil_r. split; [done|apply composable_nil]. }
  destruct (adds_write_overall env output_dir api_key names P
              Hcall Hsleep Hsheet Hoverview Hopen Hclose
              (combinations2 (excel_files env input_dir))
              (basenames_combinations2 _) tr) as (added & Htr & Hadded).
  exists added. split; [|done].
  by destruct (write_overall env output_dir api_key _ tr) as [[[]|e] tr1].
Qed.

(** Everything a run does is its own: a request bears the key given and the
    names of two files it compares, a sleep lasts the default delay, a
    writer is that of the overall report or of the report of a compared
    pair, and a sheet goes into the overall report as [总览] or into the
    report of a compared pair under a title of at most 30 characters. *)
Lemma run_events (env : Env) (input_dir output_dir api_key : str) (tr : trace) :
  ∃ added,
    (perform_comparison env input_dir output_dir api_key tr).2 = tr ++ added
    ∧ Forall (run_event output_dir api_key (overall_output_filename env output_dir)
                (combinations2 (basename <$> excel_files env input_dir)))
             added.
Proof.
  apply perform_comparison_adds; try apply _.
  - intros q Hn Hk. by apply Forall_singleton.
  - by apply Forall_singleton.
  - intros n1 n2 title df Hin Hlen. apply Forall_singleton. right. by exists n1, n2.
  - intros df. apply Forall_singleton. by left.
  - intros file tr' mid Hr Hmid _. by constructor.
  - intros file mid Hr Hmid. constructor; [done|].
    apply Forall_app. split; [done|]. by apply Forall_singleton.
Qed.

Lemma calls_Forall (ok : Request → Prop) (tr : trace) :
  Forall (λ ev, ∀ q, ev = Call q → ok q) tr → Forall ok (calls tr).
Proof.
  induction 1 as [|ev tr Hev _ IH]; [constructor|].
  destruct ev; cbn [calls omap] in *; try done.
  constructor; [by apply Hev|done].
Qed.

(** X10. Every request of a run bears the key the run was given and the names of
    two files it compares, in the order of their pair, and the run never
    sleeps but for the default delay. *)
Theorem run_requests_bear_key_and_pair_names
    (env : Env) (input_dir output_dir api_key : str) (tr : trace) :
  ∃ added,
    (perform_comparison env input_dir output_dir api_key tr).2 = tr ++ added
    ∧ Forall (λ q, req_api_key q = api_key
                   ∧ (req_name1 q, req_name2 q)
                     ∈ combinations2 (basename <$> excel_files env input_dir))
             (calls added)
    ∧ ∀ seconds, Sleep seconds ∈ added → seconds = 5%N.
Proof.
  destruct (run_events env input_dir output_dir api_key tr) as (added & Htr & Hall).
  exists added. split; [done|]. split.
  - apply calls_Forall. eapply Forall_impl; [exact Hall|].
    intros ev Hev q ->. by destruct Hev.
  - intros seconds Hin. rewrite Forall_forall in Hall. exact (Hall _ Hin).
Qed.

Lemma run_requests_bear_key_and_pair_names_witness :
  ∃ added,
    (perform_comparison Sample2.second_time_lucky u"in" u"out" u"sk-0" []).2
    = [] ++ added
    ∧ Forall (λ q, req_api_key q = u"sk-0"
                   ∧ (req_name1 q, req_name2 q)
                     ∈ combinations2
                         (basename <$> excel_files Sample2.second_time_lucky u"in"))
             (calls added)
    ∧ ∀ seconds, Sleep seconds ∈ added → seconds = 5%N.
Proof.
  exact (run_requests_bear_key_and_pair_names Sample2.second_time_lucky
           u"in" u"out" u"sk-0" []).
Defined.

(** X11. A run writes nowhere but in its own reports: the overall report, and
    for pairs of files it compares the file [Comparison_…_vs_….xlsx] named
    after the pair, directly in the output directory. *)
Theorem run_writes_only_its_reports
    (env : Env) (input_dir output_dir api_key : str) (tr : trace) :
  ∃ added,
    (perform_comparison env input_dir output_dir api_key tr).2 = tr ++ added
    ∧ ∀ ev file, ev ∈ added → file_of ev = Some file →
        file = path_join output_dir
                 (u"Overall_Comparison_" ++ timestamp env ++ u".xlsx")
        ∨ ∃ file1_path file2_path name,
            (file1_path, file2_path) ∈ combinations2 (excel_files env input_dir)
            ∧ name = u"Comparison_" ++ basename file1_path ++ u"_vs_"
                     ++ basename file2_path ++ u".xlsx"
            ∧ file = path_join output_dir name
            ∧ basename file = name.
Proof.
  destruct (run_events env input_dir output_dir api_key tr) as (added & Htr & Hall).
  exists added. split; [done|]. intros ev file Hin Hfile.
  rewrite Forall_forall in Hall. specialize (Hall _ Hin).
  assert (Hpair : ∀ n1 n2,
            (n1, n2) ∈ combinations2 (basename <$> excel_files env input_dir) →
            file = pair_report_name output_dir n1 n2 →
            ∃ file1_path file2_path name,
              (file1_path, file2_path) ∈ combinations2 (excel_files env input_dir)
              ∧ name = u"Comparison_" ++ basename file1_path ++ u"_vs_"
                       ++ basename file2_path ++ u".xlsx"
              ∧ file = path_join output_dir name
              ∧ basename file = name).
  { intros n1 n2 Hn ->. rewrite combinations2_fmap in Hn.
    apply list_elem_of_fmap in Hn as ([a b] & [= -> ->] & Hab).
    exists a, b, (u"Comparison_" ++ basename a ++ u"_vs_" ++ basename b ++ u".xlsx").
    split; [done|]. split; [done|]. split; [done|].
    apply basename_path_join, report_name_no_slash. }
  destruct ev as [q|s|f|f title df|f]; cbn [file_of] in Hfile; try done;
    injection Hfile as ->; cbn [run_event] in Hall.
  - destruct Hall as [->|(n1 & n2 & Hn & Hf)]; [by left|right; eauto].
  - destruct Hall as [[-> _]|(n1 & n2 & Hn & Hf & _)]; [by left|right; eauto].
  - destruct Hall as [->|(n1 & n2 & Hn & Hf)]; [by left|right; eauto].
Qed.

Lemma run_writes_only_its_reports_witness :
  ∃ added,
    (perform_comparison Sample2.second_time_lucky u"in" u"out" u"sk-0" []).2
    = [] ++ added
    ∧ ∀ file, OpenWriter file ∈ added → file_of (OpenWriter file) = Some file →
        file = path_join u"out" (u"Overall_Comparison_" ++ u"20240101_093000" ++ u".xlsx")
        ∨ ∃ file1_path file2_path name,
            (file1_path, file2_path)
            ∈ combinations2 (excel_files Sample2.second_time_lucky u"in")
            ∧ name = u"Comparison_" ++ basename file1_path ++ u"_vs_"
                     ++ basename file2_path ++ u".xlsx"
            ∧ file = path_join u"out" name
            ∧ basename file = name.
Proof.
  destruct (run_writes_only_its_reports Sample2.second_time_lucky
              u"in" u"out" u"sk-0" []) as (added & Htr & Hall).
  exists added. split; [exact Htr|].
  intros file Hin Hfile. exact (Hall (OpenWriter file) file Hin Hfile).
Defined.

(** X12. No sheet of a run has a title of more than 30 characters, however long
    the names of the sheets compared. *)
Theorem sheet_titles_fit
    (env : Env) (input_dir output_dir api_key : str) (tr : trace) :
  ∃ added,
    (perform_comparison env input_dir output_dir api_key tr).2 = tr ++ added
    ∧ ∀ file title df, ToExcel file title df ∈ added → length title ≤ 30.
Proof.
  destruct (run_events env input_dir output_dir api_key tr) as (added & Htr & Hall).
  exists added. split; [done|]. intros file title df Hin.
  rewrite Forall_forall in Hall. specialize (Hall _ Hin). cbn [run_event] in Hall.
  destruct Hall as [[_ ->]|(n1 & n2 & _ & _ & Hlen)]; [|done].
  vm_compute. lia.
Qed.

Lemma sheet_titles_fit_witness :
  ∃ added,
    (perform_comparison Sample2.second_time_lucky u"in" u"out" u"sk-0" []).2
    = [] ++ added
    ∧ ∀ file title df, ToExcel file title df ∈ added → length title ≤ 30.
Proof.
  exact (sheet_titles_fit Sample2.second_time_lucky u"in" u"out" u"sk-0" []).
Defined.

Lemma opened_app (tr1 tr2 : trace) : opened (tr1 ++ tr2) = opened tr1 ++ opened tr2.
Proof. apply omap_app. Qed.

Lemma closed_app (tr1 tr2 : trace) : closed (tr1 ++ tr2) = closed tr1 ++ closed tr2.
Proof. apply omap_app. Qed.

Global Instance balanced_composable : Composable balanced.
Proof.
  split; [unfold balanced; cbn; reflexivity|]. unfold balanced. intros tr1 tr2 H1 H2.
  by rewrite opened_app, closed_app, H1, H2.
Qed.

(** X13. When closing a writer never fails, a run leaves no writer open: the
    writers it has closed are those it has opened, whatever went wrong in
    between. *)
Theorem every_opened_writer_is_closed
    (env : Env) (input_dir output_dir api_key : str) (tr : trace) :
  (∀ tr' file, close env tr' file = None) →
  ∃ added,
    (perform_comparison env input_dir output_dir api_key tr).2 = tr ++ added
    ∧ opened added ≡ₚ closed added.
Proof.
  intros Hclose.
  apply (perform_comparison_adds env input_dir output_dir api_key balanced);
    try (unfold balanced; cbn; reflexivity); try apply _.
  - intros file tr' mid _ _ Hc. by rewrite Hclose in Hc.
  - intros file mid _ Hmid. unfold balanced in *.
    rewrite !opened_app, !closed_app. cbn [opened closed omap app].
    rewrite app_nil_r, Hmid. apply Permutation_cons_append.
Qed.

Lemma every_opened_writer_is_closed_witness :
  ∃ added,
    (perform_comparison (Sample.world Sample.four_files Sample.overloaded)
       u"in" u"out" u"sk-0" []).2 = [] ++ added
    ∧ opened added ≡ₚ closed added.
Proof.
  apply every_opened_writer_is_closed. intros tr' file. reflexivity.
Defined.

(** ** How a run ends *)

(** X14. With two files or more, a run gives no path only when the outside
    refuses to open, to write or to close the overall report. When the
    report cannot be opened nothing is compared; when it is refused later,
    the pairs have all been compared all the same. *)
Theorem run_fails_only_on_the_overall_report
    (env : Env) (input_dir output_dir api_key : str) (tr : trace) :
  let files := excel_files env input_dir in
  let overall := overall_output_filename env output_dir in
  let run := perform_comparison env input_dir output_dir api_key tr in
  2 ≤ length files →
  ∃ overview_data tr1,
    let overview := ToExcel overall u"总览" (overview_df overview_data) in
    compare_pairs env output_dir api_key (combinations2 files) []
      (tr ++ [OpenWriter overall])
    = (Ok overview_data, tr1)
    ∧ (run.1 = None
       ↔ ExcelWriter env tr overall ≠ None
         ∨ to_excel env tr1 overall u"总览" (overview_df overview_data) ≠ None
         ∨ close env (tr1 ++ [overview]) overall ≠ None)
    ∧ (ExcelWriter env tr overall ≠ None → run = (None, tr))
    ∧ (ExcelWriter env tr overall = None → ∃ rest, run.2 = tr1 ++ rest).
Proof.
  intros files overall run Hn.
  destruct (compare_pairs_never_raises env output_dir api_key (combinations2 files)
              [] (tr ++ [OpenWriter overall])) as (od & tr1 & Hrun & _).
  cbn [app] in Hrun. exists od, tr1. cbv zeta. split; [done|].
  assert (Hperform : run
    = match ExcelWriter env tr overall with
      | Some _ => (None, tr)
      | None =>
          match to_excel env tr1 overall u"总览" (overview_df od) with
          | Some _ =>
              match close env tr1 overall with
              | Some _ => (None, tr1)
              | None => (None, tr1 ++ [CloseWriter overall])
              end
          | None =>
              let tr2 := tr1 ++ [ToExcel overall u"总览" (overview_df od)] in
              match close env tr2 overall with
              | Some _ => (None, tr2)
              | None => (Some overall, tr2 ++ [CloseWriter overall])
              end
          end
      end).
  { unfold run, perform_comparison. fold files.
    rewrite bool_decide_eq_false_2 by lia.
    unfold write_overall, with_writer. fold overall.
    destruct (ExcelWriter env tr overall); [done|].
    unfold mbind, M_bind. rewrite Hrun. unfold write_sheet, guarded.
    destruct (to_excel env tr1 overall _ _).
    - by destruct (close env tr1 overall).
    - cbv zeta. by destruct (close env _ overall). }
  rewrite Hperform. clear Hperform.
  destruct (ExcelWriter env tr overall) as [e|].
  { split; [split; [by left|done]|]. split; [done|]. done. }
  destruct (to_excel env tr1 overall _ _) as [e|].
  { destruct (close env tr1 overall); cbn [fst snd].
    - split; [split; [right; by left|done]|]. split; [done|].
      intros _. exists []. by rewrite app_nil_r.
    - split; [split; [right; by left|done]|]. split; [done|].
      intros _. by eexists. }
  cbv zeta. destruct (close env _ overall) as [e|]; cbn [fst snd].
  - split; [split; [right; by right|done]|]. split; [done|].
    intros _. by eexists.
  - split; [split; [done|intros [?|[?|?]]; done]|]. split; [done|].
    intros _. rewrite <- app_assoc. by eexists.
Qed.

Lemma run_fails_only_on_the_overall_report_witness :
  (perform_comparison
     (Sample.world_refusing [u"总览"] Sample.three_files Sample.overloaded)
     u"in" u"out" u"sk-0" []).1 = None.
Proof.
  destruct (run_fails_only_on_the_overall_report
              (Sample.world_refusing [u"总览"] Sample.three_files Sample.overloaded)
              u"in" u"out" u"sk-0" []) as (overview_data & tr1 & _ & Hnone & _).
  - vm_compute. lia.
  - apply Hnone. right. left. vm_compute. discriminate.
Defined.

(** ** The files compared *)

(** X15. The files compared are those the directory search gives, in its order,
    less the lock files, and no entry of the overview names a lock file. *)
Theorem lock_files_are_never_compared
    (env : Env) (input_dir output_dir api_key : str) (tr : trace) :
  let found := glob env (path_join input_dir u"*.xlsx") in
  let files := excel_files env input_dir in
  files `sublist_of` found
  ∧ (∀ f, f ∈ files ↔ f ∈ found ∧ startswith (basename f) u"~$" = false)
  ∧ ∃ overview_data tr',
      compare_pairs env output_dir api_key (combinations2 files) [] tr
      = (Ok overview_data, tr')
      ∧ Forall (λ e, startswith (entry_file1 e) u"~$" = false
                     ∧ startswith (entry_file2 e) u"~$" = false)
               overview_data.
Proof.
  intros found files.
  assert (Hfiles : ∀ f, f ∈ files ↔ f ∈ found ∧ startswith (basename f) u"~$" = false).
  { intros f. unfold files, excel_files. rewrite list_elem_of_filter. tauto. }
  split; [apply sublist_filter|]. split; [done|].
  destruct (compare_pairs_never_raises env output_dir api_key (combinations2 files)
              [] tr) as (od & tr' & Hrun & Hnames & _).
  cbn [app] in Hrun. exists od, tr'. split; [done|].
  apply Forall_forall. intros e He.
  assert (Hin : names e ∈ basenames <$> combinations2 files).
  { rewrite <- Hnames. by apply list_elem_of_fmap_2. }
  apply list_elem_of_fmap in Hin as ([a b] & Heq & Hab).
  apply elem_of_combinations2 in Hab as (i & j & _ & Hi & Hj).
  apply list_elem_of_lookup_2 in Hi, Hj. apply Hfiles in Hi as [_ Hi], Hj as [_ Hj].
  unfold names, basenames in Heq. cbn [fst snd] in Heq. by injection Heq as -> ->.
Qed.

Lemma lock_files_are_never_compared_witness :
  excel_files (Sample.world Sample.three_files Sample.overloaded) u"in"
  `sublist_of` Sample.three_files
  ∧ excel_files (Sample.world Sample.three_files Sample.overloaded) u"in"
    = [u"in/A.xlsx"; u"in/B.xlsx"; u"in/C.xlsx"].
Proof.
  destruct (lock_files_are_never_compared
              (Sample.world Sample.three_files Sample.overloaded)
              u"in" u"out" u"sk-0" []) as (Hsub & _).
  split; [exact Hsub|]. vm_compute. reflexivity.
Defined.

(** ** The trace of one pair *)

Lemma write_pair_report_outcome (env : Env) (output_dir n1 n2 api_key : str)
    (xls1 xls2 : Workbook) (sheets1 sheets2 : gset str) (tr : trace) :
  let file := pair_report_name output_dir n1 n2 in
  let run := write_pair_report env file xls1 xls2 sheets1 sheets2 n1 n2 api_key tr in
  match ExcelWriter env tr file with
  | Some e => run = (Raise e, tr)
  | None =>
      ∃ mid, match run.1 with
             | Ok _ => run.2 = tr ++ [OpenWriter file] ++ mid ++ [CloseWriter file]
             | Raise _ => run.2 = tr ++ [OpenWriter file] ++ mid
                          ∨ run.2 = tr ++ [OpenWriter file] ++ mid ++ [CloseWriter file]
             end
  end.
Proof.
  intros file run. unfold run, write_pair_report, with_writer.
  destruct (ExcelWriter env tr file); [done|].
  assert (Hbody : adds (Forall (λ _, True))
            (write_sheet env file u"概览" (pair_overview_df sheets1 sheets2);;
             for_each (compare_sheet env file xls1 xls2 n1 n2 api_key)
                      (sorted_names (sheets1 ∩ sheets2)))).
  { apply adds_bind; [apply _| |intros _].
    - apply adds_write_sheet; [apply _|]. by repeat constructor.
    - apply adds_for_each; [apply _|]. intros sheet_name _.
      apply adds_compare_sheet with (names := [(n1, n2)]);
        first [apply _ | intros; by apply Forall_true | by apply Forall_true
              | apply list_elem_of_here]. }
  destruct (Hbody (tr ++ [OpenWriter file])) as (mid & Htr & _).
  match type of Htr with
  | (?b).2 = _ => destruct b as [r tr1]
  end.
  cbn [snd] in Htr. subst tr1. exists mid.
  destruct (close env _ file); cbn [fst snd]; rewrite <- ?app_assoc.
  - by left.
  - destruct r; [done|by right].
Qed.

(** X16. A pair of which a workbook cannot be read, or whose workbooks share no
    sheet, leaves nothing behind but its entry in the overview: no report
    is opened for it and nothing is sent. The report of a completed pair
    was opened by the pair and closed by it, and a pair ends in a
    processing error without a trace only when its report could not be
    opened. *)
Theorem pair_without_comparison_leaves_no_trace
    (env : Env) (output_dir api_key file1_path file2_path : str)
    (e : OverviewEntry) (tr tr' : trace) :
  let file := pair_report_name output_dir (basename file1_path) (basename file2_path) in
  compare_pair env output_dir api_key (file1_path, file2_path) tr = (Ok e, tr') →
  match entry_status e with
  | ReadError | NoCommonSheets => tr' = tr
  | Completed =>
      ExcelWriter env tr file = None
      ∧ ∃ mid, tr' = tr ++ [OpenWriter file] ++ mid ++ [CloseWriter file]
  | ProcessingError =>
      match ExcelWriter env tr file with
      | Some _ => tr' = tr
      | None => ∃ mid, tr' = tr ++ [OpenWriter file] ++ mid
      end
  end.
Proof.
  intros file Hrun. rewrite compare_pair_eq in Hrun. cbv zeta in Hrun.
  pose proof (open_pair_adds_nothing env file1_path file2_path tr) as Hopen.
  destruct (open_pair env file1_path file2_path tr)
    as [[[[[xls1 xls2] sheets1] sheets2]|err] tr1]; cbn [snd] in Hopen; subst tr1.
  2: { by injection Hrun as <- <-. }
  destruct (sorted_names (sheets1 ∩ sheets2)).
  { by injection Hrun as <- <-. }
  pose proof (write_pair_report_outcome env output_dir (basename file1_path)
                (basename file2_path) api_key xls1 xls2 sheets1 sheets2 tr) as Hout.
  cbv zeta in Hout. fold file in Hout, Hrun.
  destruct (write_pair_report env file xls1 xls2 sheets1 sheets2 _ _ api_key tr)
    as [[[]|err] tr2]; injection Hrun as <- <-; cbn [entry_status entry].
  - destruct (ExcelWriter env tr file); [done|]. done.
  - destruct (ExcelWriter env tr file).
    + by injection Hout as _ ->.
    + destruct Hout as (mid & [Hmid|Hmid]); cbn [fst snd] in Hmid; by eexists.
Qed.

Lemma pair_without_comparison_leaves_no_trace_witness :
  ∃ e tr',
    compare_pair (Sample.world Sample.three_files Sample.overloaded) u"out" u"sk-0"
      (u"in/A.xlsx", u"in/gone.xlsx") [] = (Ok e, tr')
    ∧ entry_status e = ReadError ∧ tr' = [].
Proof.
  destruct (compare_pair_never_raises
              (Sample.world Sample.three_files Sample.overloaded) u"out" u"sk-0"
              (u"in/A.xlsx", u"in/gone.xlsx") []) as (e & tr' & Hrun & _).
  exists e, tr'. split; [exact Hrun|].
  assert (Hst : entry_status e = ReadError).
  { assert (He : (compare_pair (Sample.world Sample.three_files Sample.overloaded)
                    u"out" u"sk-0" (u"in/A.xlsx", u"in/gone.xlsx") []).1 = Ok e)
      by (by rewrite Hrun).
    vm_compute in He. injection He as <-. reflexivity. }
  split; [exact Hst|].
  pose proof (pair_without_comparison_leaves_no_trace _ _ _ _ _ _ _ _ Hrun) as Hno.
  cbv zeta in Hno. rewrite Hst in Hno. exact Hno.
Defined.

(** ** The order of the sheets *)

Global Instance str_le_total : Total str_le.
Proof.
  intros a. unfold str_le. induction a as [|x a IH]; intros [|y b]; cbn [str_leb];
    [by left|by left|by right|].
  destruct (N.lt_trichotomy x y) as [Hlt|[->|Hgt]].
  - left. by rewrite (proj2 (N.ltb_lt x y)).
  - rewrite N.ltb_irrefl, N.eqb_refl. cbn [orb andb]. apply IH.
  - right. by rewrite (proj2 (N.ltb_lt y x)).
Qed.

Global Instance str_le_trans : Transitive str_le.
Proof.
  unfold str_le. intros a. induction a as [|x a IH]; intros [|y b] [|z c];
    cbn [str_leb]; try done.
  intros Hab Hbc.
  apply orb_true_iff in Hab as [Hab%N.ltb_lt|[Hxy%N.eqb_eq Hab]%andb_true_iff];
  apply orb_true_iff in Hbc as [Hbc%N.ltb_lt|[Hyz%N.eqb_eq Hbc]%andb_true_iff].
  - rewrite (proj2 (N.ltb_lt x z)); [done|lia].
  - subst z. by rewrite (proj2 (N.ltb_lt x y)).
  - subst y. by rewrite (proj2 (N.ltb_lt x z)).
  - subst y z. rewrite N.eqb_refl, (IH _ _ Hab Hbc). apply orb_true_r.
Qed.

(** X17. The common sheets of two workbooks are compared in ascending order of
    their names, each once, and this order does not depend on the order in
    which the workbooks list their sheets, nor on repeated names. *)
Theorem common_sheets_are_sorted (names1 names2 : list str) :
  let common := sorted_names (set_of names1 ∩ set_of names2) in
  (∀ name, name ∈ common ↔ name ∈ names1 ∧ name ∈ names2)
  ∧ NoDup common
  ∧ StronglySorted str_le common
  ∧ ∀ names1' names2',
      (∀ name, name ∈ names1' ↔ name ∈ names1) →
      (∀ name, name ∈ names2' ↔ name ∈ names2) →
      sorted_names (set_of names1' ∩ set_of names2') = common.
Proof.
  intros common. unfold common, sorted_names, set_of.
  split; [|split; [|split]].
  - intros name. rewrite merge_sort_Permutation, elem_of_elements.
    by rewrite elem_of_intersection, !elem_of_list_to_set.
  - rewrite merge_sort_Permutation. apply NoDup_elements.
  - apply StronglySorted_merge_sort; apply _.
  - intros names1' names2' H1 H2. do 2 f_equal.
    apply set_eq. intros name.
    by rewrite !elem_of_intersection, !elem_of_list_to_set, H1, H2.
Qed.

Lemma common_sheets_are_sorted_witness :
  sorted_names (set_of [u"预算"; u"备注"] ∩ set_of [u"预算"; u"备注"; u"附录"])
  = sorted_names (set_of [u"备注"; u"预算"; u"备注"] ∩ set_of [u"附录"; u"备注"; u"预算"]).
Proof.
  destruct (common_sheets_are_sorted [u"备注"; u"预算"; u"备注"]
              [u"附录"; u"备注"; u"预算"]) as (_ & _ & _ & H).
  apply H; intros name; rewrite !elem_of_cons; tauto.
Defined.

(** ** The widths of the columns *)

Lemma series_at_length (idx : nat) (df : Table) :
  idx < length (columns df) →
  Forall (λ row, length row = length (columns df)) (rows df) →
  length (series_at idx df) = length (rows df).
Proof.
  intros Hidx Hrect. unfold series_at.
  induction Hrect as [|row rws Hrow _ IH]; [done|]. cbn [omap list_omap].
  destruct (lookup_lt_is_Some_2 row idx) as [c Hc]; [lia|].
  rewrite Hc. cbn [length]. by rewrite IH.
Qed.

Lemma column_width_Some (name : str) (series : list str) :
  series ≠ [] →
  column_width name series
  = Some ((max_list (length <$> series) `max` length name + 2) `min` 50).
Proof. by destruct series. Qed.

(** X18. In a table with at least one row and one cell in each row for each
    column, every column gets a width, between 2 and 50; its label and each
    of its cells, when of at most 48 characters, fit in it with two to
    spare; and when all are that short the width is no more than the
    longest of them needs. *)
Theorem column_widths_are_bounded (df : Table) (idx : nat) (name : str) :
  NoDup (columns df) →
  rows df ≠ [] →
  Forall (λ row, length row = length (columns df)) (rows df) →
  columns df !! idx = Some name →
  ∃ w, column_widths df !! idx = Some (Some w)
       ∧ 2 ≤ w ≤ 50
       ∧ (length name ≤ 48 → length name + 2 ≤ w)
       ∧ (∀ row c, row ∈ rows df → row !! idx = Some c →
            length c ≤ 48 → length c + 2 ≤ w)
       ∧ (w < 50 →
            w = length name + 2
            ∨ ∃ row c, row ∈ rows df ∧ row !! idx = Some c ∧ w = length c + 2).
Proof.
  intros _ Hne Hrect Hname.
  assert (Hidx : idx < length (columns df)) by (by eapply lookup_lt_Some).
  pose proof (series_at_length idx df Hidx Hrect) as Hlen.
  unfold column_widths. rewrite list_lookup_imap, Hname. cbn [fmap option_fmap option_map].
  assert (Hnn : series_at idx df ≠ []).
  { intros Hnil. rewrite Hnil in Hlen. by destruct (rows df). }
  rewrite column_width_Some by done.
  set (m := max_list (length <$> series_at idx df)).
  eexists. split; [done|].
  assert (Hcells : ∀ row c, row ∈ rows df → row !! idx = Some c → length c ≤ m).
  { intros row c Hrow Hc. apply max_list_elem_of_le, list_elem_of_fmap.
    exists c. split; [done|]. unfold series_at. apply list_elem_of_omap. by exists row. }
  split; [lia|]. split; [lia|]. split.
  { intros row c Hrow Hc Hshort. specialize (Hcells row c Hrow Hc). lia. }
  intros Hw.
  destruct (decide (m ≤ length name)) as [Hle|Hgt]; [left; lia|]. right.
  assert (Hm : m ∈ length <$> series_at idx df).
  { apply max_list_elem_of. by intros Hnil%fmap_nil_inv. }
  apply list_elem_of_fmap in Hm as (c & Hc & Hin).
  unfold series_at in Hin. apply list_elem_of_omap in Hin as (row & Hrow & Hrc).
  exists row, c. split; [done|]. split; [done|]. lia.
Qed.

Lemma column_widths_are_bounded_witness :
  ∃ w, column_widths (parse_reply u"预算" Sample.plain_header_reply) !! 2 = Some (Some w)
       ∧ 2 ≤ w ≤ 50.
Proof.
  destruct (column_widths_are_bounded (parse_reply u"预算" Sample.plain_header_reply)
              2 u"差异说明") as (w & Hw & Hb & _).
  - apply (bool_decide_unpack _). vm_compute. exact I.
  - intros H. vm_compute in H. discriminate H.
  - apply (bool_decide_unpack _). vm_compute. exact I.
  - vm_compute. reflexivity.
  - by exists w.
Defined.

(** ** The log handler *)

(** X19. Within one run of the script, setting up logging a second time
    changes nothing: the logger keeps the one handler of this run's class.
    A logger without handler of the class gets exactly one, after those
    present, and the level INFO. But the test is on the class object, and
    every run of the script defines its own: over runs with different
    class objects the handlers pile up, one for each run, those of the
    earlier runs staying in place with their containers. *)
Theorem setup_logging_adds_one_handler_per_class
    (cls c1 c2 : nat) (runs : list (nat * nat)) (logger : Logger) :
  let logger1 := setup_logging cls c1 logger in
  setup_logging cls c2 logger1 = logger1
  ∧ existsb (isinstance cls) (logger_handlers logger1) = true
  ∧ logger_handlers logger `prefix_of` logger_handlers logger1
  ∧ (existsb (isinstance cls) (logger_handlers logger) = false →
       logger1 = {| logger_level := 20;
                    logger_handlers := logger_handlers logger
                                       ++ [StreamlitLogHandler cls c1] |})
  ∧ (NoDup runs.*1 →
     Forall (λ run, existsb (isinstance run.1) (logger_handlers logger) = false) runs →
       logger_handlers (script_runs runs logger)
       = logger_handlers logger ++ (handler_of <$> runs)
       ∧ (runs ≠ [] → logger_level (script_runs runs logger) = 20%N)).
Proof.
  cbv zeta.
  assert (Hhas : existsb (isinstance cls)
                   (logger_handlers (setup_logging cls c1 logger)) = true).
  { unfold setup_logging.
    destruct (existsb (isinstance cls) (logger_handlers logger)) eqn:He; [done|].
    cbn [logger_handlers]. rewrite existsb_app, He. cbn [existsb isinstance orb].
    by rewrite bool_decide_eq_true_2. }
  split; [|split; [|split; [|split]]].
  - unfold setup_logging at 1. by rewrite Hhas.
  - exact Hhas.
  - unfold setup_logging.
    destruct (existsb (isinstance cls) (logger_handlers logger)); [done|].
    by apply prefix_app_r.
  - intros He. unfold setup_logging. by rewrite He.
  - clear Hhas cls c1 c2. revert logger.
    induction runs as [|[cls c] runs IH]; intros logger Hnd Hfresh.
    { cbn. by rewrite app_nil_r. }
    rewrite fmap_cons in Hnd. cbn [fst] in Hnd.
    apply NoDup_cons in Hnd as [Hcls Hnd].
    apply Forall_cons in Hfresh as [He Hfresh]. cbn [fst] in He.
    change (script_runs ((cls, c) :: runs) logger)
      with (script_runs runs (setup_logging cls c logger)).
    assert (Hfirst : setup_logging cls c logger
                     = {| logger_level := INFO;
                          logger_handlers := logger_handlers logger
                                             ++ [StreamlitLogHandler cls c] |})
      by (unfold setup_logging; by rewrite He).
    rewrite Hfirst.
    destruct (IH {| logger_level := INFO;
                    logger_handlers := logger_handlers logger
                                       ++ [StreamlitLogHandler cls c] |} Hnd)
      as [Hhandlers Hlevel].
    { apply Forall_forall. intros run Hrun. cbn [logger_handlers].
      rewrite existsb_app. rewrite Forall_forall in Hfresh.
      rewrite (Hfresh run Hrun). cbn [existsb isinstance orb].
      rewrite bool_decide_eq_false_2; [done|]. intros ->. apply Hcls.
      by apply list_elem_of_fmap_2. }
    split.
    + rewrite Hhandlers. cbn [logger_handlers]. rewrite fmap_cons.
      by rewrite <- app_assoc.
    + intros _. destruct runs as [|run runs]; [done|]. by apply Hlevel.
Qed.

Lemma setup_logging_adds_one_handler_per_class_witness :
  setup_logging 1 8 (setup_logging 1 7
                       {| logger_level := 30; logger_handlers := [OtherHandler] |})
  = {| logger_level := 20;
       logger_handlers := [OtherHandler; StreamlitLogHandler 1 7] |}
  ∧ logger_handlers
      (script_runs [(1, 7); (2, 8)]
         {| logger_level := 30; logger_handlers := [OtherHandler] |})
    = [OtherHandler; StreamlitLogHandler 1 7; StreamlitLogHandler 2 8].
Proof.
  destruct (setup_logging_adds_one_handler_per_class 1 7 8 [(1, 7); (2, 8)]
              {| logger_level := 30; logger_handlers := [OtherHandler] |})
    as (Hsame & _ & _ & Hfirst & Hruns).
  split.
  - rewrite Hsame. apply Hfirst. reflexivity.
  - destruct Hruns as [Hhandlers _].
    + apply (bool_decide_unpack _). vm_compute. exact I.
    + repeat constructor.
    + exact Hhandlers.
Defined.

(** ** The session state *)

Lemma lookup_set_if_absent (key : str) (v : option str)
    (state : gmap str (option str)) (k : str) :
  set_if_absent key v state !! k
  = match state !! k with
    | Some old => Some old
    | None => if decide (k = key) then Some v else None
    end.
Proof.
  unfold set_if_absent. destruct (state !! key) as [old|] eqn:Hkey.
  - destruct (state !! k) eqn:Hk; [done|]. case_decide; [congruence|done].
  - destruct (decide (k = key)) as [->|Hne].
    + by rewrite lookup_insert_eq, Hkey.
    + rewrite lookup_insert_ne by done. by destruct (state !! k).
Qed.

Ltac keys_differ :=
  let Heq := fresh in intros Heq; vm_compute in Heq; discriminate Heq.

(** X20. The initialisation, which every rerun of the script goes through, keeps
    whatever the session holds, gives the three inputs the empty text and
    the two results [None] where they are missing, adds no other key, and
    changes nothing when run again. *)
Theorem init_session_state_keeps_what_is_set (state : gmap str (option str)) :
  let state1 := init_session_state state in
  (∀ (k : str) v, state !! k = Some v → state1 !! k = Some v)
  ∧ (∀ k : str, k ∈ [input_path_key; output_path_key; api_key_key] →
       state !! k = None → state1 !! k = Some (Some []))
  ∧ (∀ k : str, k ∈ [comparison_results_key; final_excel_path_key] →
       state !! k = None → state1 !! k = Some None)
  ∧ (∀ k : str, k ∉ [input_path_key; output_path_key; api_key_key;
               comparison_results_key; final_excel_path_key] →
       state1 !! k = state !! k)
  ∧ init_session_state state1 = state1.
Proof.
  cbv zeta.
  assert (Hlookup : ∀ (st : gmap str (option str)) (k : str), init_session_state st !! k
    = match st !! k with
      | Some old => Some old
      | None =>
          if decide (k = input_path_key) then Some (Some [])
          else if decide (k = output_path_key) then Some (Some [])
          else if decide (k = api_key_key) then Some (Some [])
          else if decide (k = comparison_results_key) then Some None
          else if decide (k = final_excel_path_key) then Some None
          else None
      end).
  { intros st k. unfold init_session_state. rewrite !lookup_set_if_absent.
    destruct (st !! k); [done|]. by repeat case_decide. }
  assert (Hdistinct : NoDup [input_path_key; output_path_key; api_key_key;
                             comparison_results_key; final_excel_path_key]).
  { apply (bool_decide_unpack _). vm_compute. exact I. }
  unfold str in *.
  split; [|split; [|split; [|split]]].
  - intros k v Hk. by rewrite Hlookup, Hk.
  - intros k Hin Hk. rewrite Hlookup, Hk.
    repeat (apply elem_of_cons in Hin as [->|Hin]); [..|by apply elem_of_nil in Hin];
      rewrite ?decide_False by keys_differ; by rewrite decide_True.
  - intros k Hin Hk. rewrite Hlookup, Hk.
    repeat (apply elem_of_cons in Hin as [->|Hin]); [..|by apply elem_of_nil in Hin];
      rewrite ?decide_False by keys_differ; by rewrite decide_True.
  - intros k Hk. rewrite Hlookup. destruct (state !! k); [done|].
    rewrite !decide_False; [done|..]; intros ->; apply Hk;
      repeat first [by left | right].
  - apply map_eq. intros k. rewrite (Hlookup (init_session_state state)).
    rewrite Hlookup. destruct (state !! k); [done|]. by repeat case_decide.
Qed.

Lemma init_session_state_keeps_what_is_set_witness :
  init_session_state Sample2.session !! input_path_key = Some (Some u"in")
  ∧ init_session_state Sample2.session !! api_key_key = Some (Some []).
Proof.
  destruct (init_session_state_keeps_what_is_set Sample2.session)
    as (Hkeep & Htext & _).
  split.
  - apply Hkeep. vm_compute. reflexivity.
  - apply Htext; [do 2 right; left|vm_compute; reflexivity].
Defined.

(** ** The button *)

(** X21. After the button is pressed the session holds the path of the report
    of this run when it has one, and [None] when it has none: the path of
    an earlier report never stays. The earlier results are reset, the
    other keys are left as they were, and the run is that of the entry
    point on the three inputs of the session. *)
Theorem pressing_the_button_resets_the_report_path
    (env : Env) (state : gmap str (option str)) :
  let input_dir := get_text input_path_key state in
  let output_dir := get_text output_path_key state in
  let api_key := get_text api_key_key state in
  let state' := (press_button env state).1.1 in
  let outcome := (press_button env state).1.2 in
  (outcome, (press_button env state).2) = main env input_dir output_dir api_key
  ∧ state' !! final_excel_path_key
    = Some (match outcome with Ran (Some path) => Some path | _ => None end)
  ∧ state' !! comparison_results_key = Some None
  ∧ ∀ k : str, k ≠ final_excel_path_key → k ≠ comparison_results_key →
      state' !! k = state !! k.
Proof.
  cbv zeta. unfold press_button.
  assert (Hget : ∀ k : str, k ≠ final_excel_path_key → k ≠ comparison_results_key →
            get_text k (<[final_excel_path_key := None]>
                          (<[comparison_results_key := None]> state))
            = get_text k state).
  { intros k H1 H2. unfold get_text. by rewrite !lookup_insert_ne. }
  rewrite !Hget by keys_differ.
  destruct (main env _ _ _) as [outcome tr]. cbn [fst snd].
  assert (Hkeys : comparison_results_key ≠ final_excel_path_key) by keys_differ.
  split; [done|].
  destruct outcome as [| | |[path|]]; unfold str in *;
    rewrite ?lookup_insert_eq; (split; [done|]);
    rewrite ?(lookup_insert_ne _ final_excel_path_key comparison_results_key) by done;
    rewrite ?lookup_insert_eq; (split; [done|]);
    intros k H1 H2; by rewrite !lookup_insert_ne.
Qed.

Lemma pressing_the_button_resets_the_report_path_witness :
  (press_button (Sample.world Sample.three_files Sample.overloaded)
     Sample2.session).1.1 !! final_excel_path_key = Some None.
Proof.
  destruct (pressing_the_button_resets_the_report_path
              (Sample.world Sample.three_files Sample.overloaded) Sample2.session)
    as (_ & Hfinal & _).
  cbv zeta in Hfinal. rewrite Hfinal. vm_compute. reflexivity.
Defined.

Lemma status_text_inj (s1 s2 : Status) : status_text s1 = status_text s2 → s1 = s2.
Proof.
  destruct s1, s2; try done; intros H; vm_compute in H; discriminate H.
Qed.

(** X22. The sheet [总览] loses nothing: it has one row of four cells for each
    entry, and two overviews that give the same sheet are the same, status
    by status. *)
Theorem overview_sheet_determines_the_entries (overview1 overview2 : list OverviewEntry) :
  length (rows (overview_df overview1)) = length overview1
  ∧ Forall (λ row, length row = 4) (rows (overview_df overview1))
  ∧ (overview_df overview1 = overview_df overview2 → overview1 = overview2).
Proof.
  assert (Hrows : ∀ o, rows (overview_df o)
            = (λ e, [entry_file1 e; entry_file2 e; status_text (entry_status e);
                     entry_note e]) <$> o).
  { by intros []. }
  split; [by rewrite Hrows, length_fmap|]. split.
  { rewrite Hrows. by apply Forall_fmap, Forall_true. }
  intros Heq. apply (f_equal rows) in Heq. rewrite !Hrows in Heq.
  revert overview2 Heq. induction overview1 as [|e1 o1 IH]; intros [|e2 o2] Heq;
    try done.
  cbn [fmap list_fmap] in Heq. injection Heq as H1 H2 H3 H4 Hrest.
  apply status_text_inj in H3. f_equal; [|by apply IH].
  destruct e1, e2; cbn in *; by subst.
Qed.

Lemma overview_sheet_determines_the_entries_witness :
  length (rows (overview_df
                  [entry u"A.xlsx" u"B.xlsx" ReadError u"File is not a zip file";
                   entry u"A.xlsx" u"C.xlsx" Completed u"比较结果已保存至: r.xlsx"]))
  = 2
  ∧ [entry u"A.xlsx" u"B.xlsx" ReadError u"File is not a zip file";
     entry u"A.xlsx" u"C.xlsx" Completed u"比较结果已保存至: r.xlsx"]
    = [entry u"A.xlsx" u"B.xlsx" ReadError u"File is not a zip file";
       entry u"A.xlsx" u"C.xlsx" Completed u"比较结果已保存至: r.xlsx"].
Proof.
  destruct (overview_sheet_determines_the_entries
              [entry u"A.xlsx" u"B.xlsx" ReadError u"File is not a zip file";
               entry u"A.xlsx" u"C.xlsx" Completed u"比较结果已保存至: r.xlsx"]
              [entry u"A.xlsx" u"B.xlsx" ReadError u"File is not a zip file";
               entry u"A.xlsx" u"C.xlsx" Completed u"比较结果已保存至: r.xlsx"])
    as (Hlen & _ & Hinj).
  split; [exact Hlen|]. exact (Hinj eq_refl).
Defined.
